(** * extract_refs.py: reference-boundary parser and field extractor

    A shallow embedding of [extract_acl_references], from the collection of
    [all_lines] on, and of [references_dict].  The search of the heading in
    the full text of the document, which gives [ref_start_page], and the
    writing of the table are left out.

    Conventions of the model:
    - text is a [string] of code points below 256; the character classes of
      Python's [str] methods and of the [re] module are written out for that
      range;
    - bounding-box coordinates (Python floats) are rationals [Q] with exact
      arithmetic; two coordinates are the same number when they are [==];
    - [column_min_x] and [min_x_map] are finite maps keyed by (page, column);
      [ref_dict], whose order of insertion is the order of the rows, is a
      list of indexed rows;
    - exceptions are explicit: a loop step either goes on, leaves the loop
      or raises; the debug printing is left out. *)

From Stdlib Require Import QArith Qabs Ascii String.
From stdpp Require Import gmap strings list fin_maps sorting.

Local Open Scope Z_scope.

(** ** Characters and strings *)

Module Chr.

Definition code (c : ascii) : N := N_of_ascii c.

(** [str.isspace] for one code point; [\s] of [re] on [str] patterns uses
    the same table. *)
Definition isspace (c : ascii) : bool :=
  let n := code c in
  ((9 <=? n) && (n <=? 13) || (28 <=? n) && (n <=? 32)
   || (n =? 133) || (n =? 160))%N.

(** [\d] of [re]: decimal digits. *)
Definition isdecimal (c : ascii) : bool :=
  let n := code c in ((48 <=? n) && (n <=? 57))%N.

(** [str.isnumeric] for one code point: the decimal digits, the
    superscripts 1 2 3 and the vulgar fractions of the Latin-1 block. *)
Definition isnumeric (c : ascii) : bool :=
  let n := code c in
  (isdecimal c || (n =? 178) || (n =? 179) || (n =? 185)
   || (188 <=? n) && (n <=? 190))%N.

Definition in_range (lo hi c : ascii) : bool :=
  ((code lo <=? code c) && (code c <=? code hi))%N.

Definition newline : ascii := "010"%char.
Definition hyphen : ascii := "-"%char.

Definition is_hyphen (c : ascii) : bool := Ascii.eqb c hyphen.

End Chr.

Module Str.

Definition is_empty (s : string) : bool :=
  match s with EmptyString => true | String _ _ => false end.

(** [s.lstrip(chars)], the character set given as a predicate. *)
Fixpoint lstrip (p : ascii -> bool) (s : string) : string :=
  match s with
  | EmptyString => EmptyString
  | String c s' => if p c then lstrip p s' else s
  end.

(** [s.rstrip(chars)]. *)
Fixpoint rstrip (p : ascii -> bool) (s : string) : string :=
  match s with
  | EmptyString => EmptyString
  | String c s' =>
      let r := rstrip p s' in
      if is_empty r && p c then EmptyString else String c r
  end.

(** [s.strip(chars)]: both ends. *)
Definition strip_with (p : ascii -> bool) (s : string) : string :=
  rstrip p (lstrip p s).

(** [s.strip()] *)
Definition strip (s : string) : string := strip_with Chr.isspace s.

(** [s.strip('-')] *)
Definition strip_hyphens (s : string) : string := strip_with Chr.is_hyphen s.

Fixpoint all (p : ascii -> bool) (s : string) : bool :=
  match s with
  | EmptyString => true
  | String c s' => p c && all p s'
  end.

(** [s.isnumeric()]: at least one character, all of them numeric. *)
Definition isnumeric (s : string) : bool :=
  negb (is_empty s) && all Chr.isnumeric s.

(** [s[-1]]; [None] stands for the IndexError on the empty string. *)
Fixpoint last (s : string) : option ascii :=
  match s with
  | EmptyString => None
  | String c EmptyString => Some c
  | String _ s' => last s'
  end.

Definition first (s : string) : option ascii :=
  match s with
  | EmptyString => None
  | String c _ => Some c
  end.

End Str.

(** ** The fragment of Python's [re] that the program uses

    A backtracking matcher in continuation-passing style.  Every starred
    sub-pattern of the program is a single character class, so repetition is
    over classes. *)

Module Re.

Inductive cls : Type :=
| Lit (c : ascii)          (* a literal character *)
| Dot                      (* .   any character but a newline *)
| Space                    (* \s *)
| Digit                    (* \d *)
| Range (lo hi : ascii).   (* [lo-hi] *)

Definition cls_ok (k : cls) (c : ascii) : bool :=
  match k with
  | Lit a => Ascii.eqb c a
  | Dot => negb (Ascii.eqb c Chr.newline)
  | Space => Chr.isspace c
  | Digit => Chr.isdecimal c
  | Range lo hi => Chr.in_range lo hi c
  end.

Inductive regex : Type :=
| Eps
| Cls (k : cls)
| Seq (r1 r2 : regex)
| Alt (r1 r2 : regex)               (* r1|r2, r1 tried first *)
| Star (k : cls) (greedy : bool)    (* k* and k*? *)
| Group (n : nat) (r : regex)       (* capturing group number n *)
| Look (r : regex)                  (* (?=r) *)
| Bol                               (* ^ *)
| Eol.                              (* $ *)

(** r? *)
Definition Opt (r : regex) : regex := Alt r Eps.
(** k+ and k+? *)
Definition Plus (k : cls) (greedy : bool) : regex :=
  Seq (Cls k) (Star k greedy).
(** a literal word *)
Fixpoint Word (s : string) : regex :=
  match s with
  | EmptyString => Eps
  | String c s' => Seq (Cls (Lit c)) (Word s')
  end.

(** Position in the subject and the text still to read. *)
Definition cursor : Type := nat * string.

(** Group number and captured text, the latest capture first. *)
Definition captures : Type := list (nat * string).

Definition cont : Type := cursor -> captures -> option captures.

Fixpoint star_greedy (k : cls) (kont : cont) (caps : captures)
    (pos : nat) (s : string) : option captures :=
  match s with
  | String c s' =>
      if cls_ok k c then
        match star_greedy k kont caps (S pos) s' with
        | Some r => Some r
        | None => kont (pos, s) caps
        end
      else kont (pos, s) caps
  | EmptyString => kont (pos, s) caps
  end.

Fixpoint star_lazy (k : cls) (kont : cont) (caps : captures)
    (pos : nat) (s : string) : option captures :=
  match kont (pos, s) caps with
  | Some r => Some r
  | None =>
      match s with
      | String c s' =>
          if cls_ok k c then star_lazy k kont caps (S pos) s' else None
      | EmptyString => None
      end
  end.

Fixpoint run (r : regex) (i : cursor) (caps : captures) (kont : cont)
    : option captures :=
  match r with
  | Eps => kont i caps
  | Cls k =>
      match i.2 with
      | String c s' => if cls_ok k c then kont (S i.1, s') caps else None
      | EmptyString => None
      end
  | Seq r1 r2 => run r1 i caps (fun i' caps' => run r2 i' caps' kont)
  | Alt r1 r2 =>
      match run r1 i caps kont with
      | Some res => Some res
      | None => run r2 i caps kont
      end
  | Star k true => star_greedy k kont caps i.1 i.2
  | Star k false => star_lazy k kont caps i.1 i.2
  | Group n r1 =>
      run r1 i caps (fun i' caps' =>
        kont i' ((n, String.substring 0 (i'.1 - i.1) i.2) :: caps'))
  | Look r1 =>
      match run r1 i caps (fun _ caps' => Some caps') with
      | Some caps' => kont i caps'
      | None => None
      end
  | Bol => if (i.1 =? 0)%nat then kont i caps else None
  | Eol =>
      match i.2 with
      | EmptyString => kont i caps
      | String c EmptyString =>
          if Ascii.eqb c Chr.newline then kont i caps else None
      | _ => None
      end
  end.

Definition accept : cont := fun _ caps => Some caps.

(** [re.match(r, s)] *)
Definition re_match (r : regex) (s : string) : option captures :=
  run r (0%nat, s) [] accept.

Fixpoint search_from (r : regex) (pos : nat) (s : string)
    : option captures :=
  match run r (pos, s) [] accept with
  | Some res => Some res
  | None =>
      match s with
      | String _ s' => search_from r (S pos) s'
      | EmptyString => None
      end
  end.

(** [re.search(r, s)]: the first start position with a match. *)
Definition re_search (r : regex) (s : string) : option captures :=
  search_from r 0%nat s.

(** The truth value of a match object or [None]. *)
Definition found (o : option captures) : bool :=
  match o with Some _ => true | None => false end.

(** [m.group(n)]; [None] when the group took no part in the match. *)
Fixpoint group (n : nat) (caps : captures) : option string :=
  match caps with
  | [] => None
  | (m, s) :: caps' => if (m =? n)%nat then Some s else group n caps'
  end.

End Re.

(** ** Results of code that can raise *)

Inductive exn : Type :=
| IndexError        (* [s[-1]] on an empty string *)
| AttributeError.   (* [.group] on the [None] of a failed match *)

Inductive result (A : Type) : Type :=
| Ok (a : A)
| Raised (e : exn).
Arguments Ok {A} a.
Arguments Raised {A} e.

(** ** The boundary parser: [extract_acl_references] *)

(** One entry of [all_lines]: (page_num, column, y_pos, x_pos, text). *)
Record line : Type := Line {
  page_num : nat;
  column : Z;
  y_pos : Q;
  x_pos : Q;
  text : string
}.

Definition line_key (l : line) : nat * Z := (page_num l, column l).

(** [y < m] on floats. *)
Definition Qltb (y m : Q) : bool := negb (Qle_bool m y).

(** *** Collecting [all_lines]

    What the PDF library hands over, for the clipped part of a page: blocks
    with a type and a bounding box, their lines with a bounding box and
    spans of text. *)

(** A bounding box, the tuple (x0, y0, x1, y1). *)
Record bbox : Type := BBox { bbox_0 : Q; bbox_1 : Q; bbox_2 : Q; bbox_3 : Q }.

Record text_line : Type := TextLine {
  line_bbox : bbox;
  spans : list string
}.

Record block : Type := Block {
  block_type : Z;
  block_bbox : bbox;
  block_lines : list text_line
}.

Record page : Type := Page {
  width : Q;
  blocks : list block
}.

(** [column = 0 if block_center_x < mid_x else 1] *)
Definition block_column (mid_x : Q) (b : block) : Z :=
  let block_center_x := ((bbox_0 (block_bbox b) + bbox_2 (block_bbox b)) / 2)%Q in
  if Qltb block_center_x mid_x then 0 else 1.

(** The text of a line: its spans concatenated. *)
Definition line_text (tl : text_line) : string :=
  foldl String.append "" (spans tl).

(** The entry of [all_lines] for one line of a block, if its text is not
    blank. *)
Definition line_entry (p : nat) (col : Z) (tl : text_line) : option line :=
  let t := Str.strip (line_text tl) in
  if Str.is_empty t then None
  else Some (Line p col (bbox_1 (line_bbox tl)) (bbox_0 (line_bbox tl)) t).

Definition lines_of_block (p : nat) (mid_x : Q) (b : block) : list line :=
  if block_type b =? 0 then
    omap (line_entry p (block_column mid_x b)) (block_lines b)
  else [].

Definition lines_of_page (p : nat) (pg : page) : list line :=
  let mid_x := (width pg / 2)%Q in
  blocks pg ≫= lines_of_block p mid_x.

(** The loop [for page_num in range(ref_start_page, len(doc))]. *)
Definition collect_lines (doc : list page) (ref_start_page : nat)
    : list line :=
  mjoin (imap (fun k pg => lines_of_page (ref_start_page + k) pg)
              (drop ref_start_page doc)).

(** The sort key [(x[0], x[1], x[2])] and the order of tuples on it. *)
Definition key_lt (a b : line) : bool :=
  if negb (page_num a =? page_num b)%nat then (page_num a <? page_num b)%nat
  else if negb (column a =? column b) then column a <? column b
  else Qltb (y_pos a) (y_pos b).

(** [all_lines.sort(key=...)]: the sort is stable, so its result is the one
    of insertion sort, each line put after the lines that are not above it
    in the order. *)
Fixpoint insert_line (l : line) (sorted : list line) : list line :=
  match sorted with
  | [] => [l]
  | h :: t => if key_lt l h then l :: h :: t else h :: insert_line l t
  end.

Definition sort_lines (ls : list line) : list line :=
  foldl (fun acc l => insert_line l acc) [] ls.

(** The built-in [min] of a list: the first of the smallest items; [None]
    is the ValueError on an empty list. *)
Definition py_min (xs : list Q) : option Q :=
  match xs with
  | [] => None
  | x :: xs' => Some (foldl (fun m y => if Qltb y m then y else m) x xs')
  end.

(** [column_min_x], the defaultdict(list) filled by the first loop. *)
Definition column_min_x (all_lines : list line) : gmap (nat * Z) (list Q) :=
  foldl (fun m l =>
           <[line_key l := default [] (m !! line_key l) ++ [x_pos l]]> m)
        ∅ all_lines.

(** [min_x_map]: the minimum x of each (page, column).  No list of
    [column_min_x] is empty (lemma [column_min_x_nonempty] below), so [min]
    never raises and no key is lost. *)
Definition min_x_map (all_lines : list line) : gmap (nat * Z) Q :=
  omap py_min (column_min_x all_lines).

(** The variables of the parse loop. *)
Record state : Type := State {
  references : list string;
  tolerance : Q;
  current_ref : string;
  in_references : bool;
  prev_was_A : bool;
  ref_count : nat;
  page_list : list nat;
  old_text : string
}.

Definition init_state : state :=
  {| references := []; tolerance := 3; current_ref := "";
     in_references := false; prev_was_A := false; ref_count := 0;
     page_list := []; old_text := "" |}.

Definition set_in_references (b : bool) (st : state) : state :=
  {| references := references st; tolerance := tolerance st;
     current_ref := current_ref st; in_references := b;
     prev_was_A := prev_was_A st; ref_count := ref_count st;
     page_list := page_list st; old_text := old_text st |}.

Definition set_prev_was_A (b : bool) (st : state) : state :=
  {| references := references st; tolerance := tolerance st;
     current_ref := current_ref st; in_references := in_references st;
     prev_was_A := b; ref_count := ref_count st;
     page_list := page_list st; old_text := old_text st |}.

Definition set_tolerance (t : Q) (st : state) : state :=
  {| references := references st; tolerance := t;
     current_ref := current_ref st; in_references := in_references st;
     prev_was_A := prev_was_A st; ref_count := ref_count st;
     page_list := page_list st; old_text := old_text st |}.

Definition set_current_ref (s : string) (st : state) : state :=
  {| references := references st; tolerance := tolerance st;
     current_ref := s; in_references := in_references st;
     prev_was_A := prev_was_A st; ref_count := ref_count st;
     page_list := page_list st; old_text := old_text st |}.

Definition set_old_text (s : string) (st : state) : state :=
  {| references := references st; tolerance := tolerance st;
     current_ref := current_ref st; in_references := in_references st;
     prev_was_A := prev_was_A st; ref_count := ref_count st;
     page_list := page_list st; old_text := s |}.

(** [page_list.append(p)] *)
Definition push_page (p : nat) (st : state) : state :=
  {| references := references st; tolerance := tolerance st;
     current_ref := current_ref st; in_references := in_references st;
     prev_was_A := prev_was_A st; ref_count := ref_count st;
     page_list := page_list st ++ [p]; old_text := old_text st |}.

(** [references.append(current_ref.strip()); ref_count += 1] *)
Definition push_reference (st : state) : state :=
  {| references := references st ++ [Str.strip (current_ref st)];
     tolerance := tolerance st;
     current_ref := current_ref st; in_references := in_references st;
     prev_was_A := prev_was_A st; ref_count := S (ref_count st);
     page_list := page_list st; old_text := old_text st |}.

(** The heading pattern: ( References | REFERENCES | Bibliography ) *)
Definition heading_re : Re.regex :=
  Re.Group 1 (Re.Alt (Re.Word "References")
             (Re.Alt (Re.Word "REFERENCES") (Re.Word "Bibliography"))).

(** The appendix pattern, spaced out as under re.X:
    ^ \n* (?: A \s+ [A-Z] ) *)
Definition appendix_re : Re.regex :=
  Re.Seq Re.Bol
    (Re.Seq (Re.Star (Re.Lit Chr.newline) true)
       (Re.Seq (Re.Cls (Re.Lit "A"%char))
          (Re.Seq (Re.Plus Re.Space true) (Re.Cls (Re.Range "A"%char "Z"%char))))).

(** [page_num in page_list] *)
Definition page_in (p : nat) (ps : list nat) : bool := existsb (Nat.eqb p) ps.

(** The tolerance after the [if column == 0 ... elif column == 1 ...]; any
    other column leaves the variable as it is. *)
Definition column_tolerance (tol : Q) (col : Z) : Q :=
  if col =? 0 then 3 else if col =? 1 then 15 else tol.

(** [min_x_map.get(key, x_pos)] *)
Definition baseline (m : gmap (nat * Z) Q) (l : line) : Q :=
  default (x_pos l) (m !! line_key l).

(** [is_new_ref]: [abs(x_pos - min_x) <= tolerance]. *)
Definition is_new_ref (m : gmap (nat * Z) Q) (tol : Q) (l : line) : bool :=
  Qle_bool (Qabs (x_pos l - baseline m l)) (column_tolerance tol (column l)).

(** How one iteration of the parse loop ends. *)
Inductive flow : Type :=
| Next (st : state)      (* [continue], or the end of the body *)
| Break (st : state)     (* [break] *)
| Throw (e : exn).

(** The continuation branch: join the line to [current_ref]. *)
Definition join_continuation (st : state) (l : line) : result state :=
  if Str.is_empty (current_ref st) then
    Ok (set_current_ref (Str.strip_hyphens (text l)) st)
  else
    match Str.last (old_text st) with
    | None => Raised IndexError
    | Some c =>
        if Ascii.eqb c Chr.hyphen then
          Ok (set_current_ref
                (current_ref st +:+ Str.strip_hyphens (text l)) st)
        else
          Ok (set_current_ref
                (current_ref st +:+ " " +:+ Str.strip_hyphens (text l)) st)
    end.

(** The new-reference branch, for a line that is not numeric. *)
Definition start_reference (st : state) (l : line) : state :=
  let st1 :=
    if Str.is_empty (current_ref st) then st else push_reference st in
  set_current_ref (Str.strip_hyphens (text l)) st1.

(** The rest of the loop body, from [page_list.append(page_num)] on:
    classification by indentation and accumulation. *)
Definition accumulate (m : gmap (nat * Z) Q) (st : state) (l : line) : flow :=
  let st1 := push_page (page_num l) st in
  let new := is_new_ref m (tolerance st1) l in
  let st2 :=
    set_tolerance (column_tolerance (tolerance st1) (column l)) st1 in
  if new then
    if Str.isnumeric (text l) then Next st2
    else
      Next (set_old_text (text l)
              (set_prev_was_A false (start_reference st2 l)))
  else
    match join_continuation st2 l with
    | Raised e => Throw e
    | Ok st3 => Next (set_old_text (text l) (set_prev_was_A false st3))
    end.

(** The body of [for i, (page_num, column, y_pos, x_pos, text) in
    enumerate(all_lines)]. *)
Definition step (m : gmap (nat * Z) Q) (st : state) (l : line) : flow :=
  if negb (in_references st) then
    if Re.found (Re.re_search heading_re (text l)) then
      Next (set_in_references true st)
    else Next st
  else if String.eqb (Str.strip (text l)) "A" then
    Next (set_prev_was_A true st)
  else if prev_was_A st then Break st
  else if Re.found (Re.re_match appendix_re (text l)) then
    if page_in (page_num l) (page_list st) then Next st else Break st
  else accumulate m st l.

(** The loop over [all_lines]: how it is left, with the state then. *)
Fixpoint parse_loop (m : gmap (nat * Z) Q) (st : state) (ls : list line)
    : flow :=
  match ls with
  | [] => Next st
  | l :: ls' =>
      match step m st l with
      | Next st' => parse_loop m st' ls'
      | Break st' => Break st'
      | Throw e => Throw e
      end
  end.

(** After the loop: [if current_ref: references.append(current_ref.strip())],
    then [return references]. *)
Definition finish (st : state) : list string :=
  if Str.is_empty (current_ref st) then references st
  else references (push_reference st).

(** What the function returns once the loop is left. *)
Definition output (f : flow) : result (list string) :=
  match f with
  | Next st | Break st => Ok (finish st)
  | Throw e => Raised e
  end.

(** The part of [extract_acl_references] after the sort of [all_lines]. *)
Definition extract_from_lines (all_lines : list line) : result (list string) :=
  match all_lines with
  | [] => Ok []
  | _ => output (parse_loop (min_x_map all_lines) init_state all_lines)
  end.

(** [extract_acl_references] once the page of the heading is known: the
    lines are collected, sorted and parsed. *)
Definition extract_acl_references (doc : list page) (ref_start_page : nat)
    : result (list string) :=
  extract_from_lines (sort_lines (collect_lines doc ref_start_page)).

(** ** The field extractor: [references_dict] *)

(** One row of the table: the inner dict with its five keys. *)
Record structured_reference : Type := Row {
  authors : string;
  year : string;
  title : string;
  venue : string;
  doi : string
}.

(** pattern_1, spaced out as under re.X:
    ( ^ .+? ) \. \s ( (?:19|20) \d{2} ) \. \s ( .* ) *)
Definition pattern_1 : Re.regex :=
  Re.Seq (Re.Group 1 (Re.Seq Re.Bol (Re.Plus Re.Dot false)))
    (Re.Seq (Re.Cls (Re.Lit "."%char))
       (Re.Seq (Re.Cls Re.Space)
          (Re.Seq (Re.Group 2
                     (Re.Seq (Re.Alt (Re.Word "19") (Re.Word "20"))
                        (Re.Seq (Re.Cls Re.Digit) (Re.Cls Re.Digit))))
             (Re.Seq (Re.Cls (Re.Lit "."%char))
                (Re.Seq (Re.Cls Re.Space)
                   (Re.Group 3 (Re.Star Re.Dot true))))))).

(** pattern_2, spaced out as under re.X:
    ^ ( .*? \. ) ( \s+ .* )? $ *)
Definition pattern_2 : Re.regex :=
  Re.Seq Re.Bol
    (Re.Seq (Re.Group 1 (Re.Seq (Re.Star Re.Dot false) (Re.Cls (Re.Lit "."%char))))
       (Re.Seq
          (Re.Opt (Re.Group 2
                     (Re.Seq (Re.Plus Re.Space true) (Re.Star Re.Dot true))))
          Re.Eol)).

(** The lookahead of pattern_3:
    [A-Z] [a-z]+ , \s+ [A-Z] | Virtual | Online | pages *)
Definition place_or_pages : Re.regex :=
  Re.Alt
    (Re.Seq (Re.Cls (Re.Range "A"%char "Z"%char))
       (Re.Seq (Re.Plus (Re.Range "a"%char "z"%char) true)
          (Re.Seq (Re.Cls (Re.Lit ","%char))
             (Re.Seq (Re.Plus Re.Space true) (Re.Cls (Re.Range "A"%char "Z"%char))))))
    (Re.Alt (Re.Word "Virtual") (Re.Alt (Re.Word "Online") (Re.Word "pages"))).

(** pattern_3, spaced out as under re.X:
    (?: In \s+ )? (?: Proceedings \s+ of \s+ )? (?: the \s+ )? ( .+? )
    (?: , \s+ (?= lookahead ) | , \s ( abs/ .+ )? \. | \. $ ) *)
Definition pattern_3 : Re.regex :=
  Re.Seq (Re.Opt (Re.Seq (Re.Word "In") (Re.Plus Re.Space true)))
    (Re.Seq
       (Re.Opt (Re.Seq (Re.Word "Proceedings")
                  (Re.Seq (Re.Plus Re.Space true)
                     (Re.Seq (Re.Word "of") (Re.Plus Re.Space true)))))
       (Re.Seq (Re.Opt (Re.Seq (Re.Word "the") (Re.Plus Re.Space true)))
          (Re.Seq (Re.Group 1 (Re.Plus Re.Dot false))
             (Re.Alt
                (Re.Seq (Re.Cls (Re.Lit ","%char))
                   (Re.Seq (Re.Plus Re.Space true) (Re.Look place_or_pages)))
                (Re.Alt
                   (Re.Seq (Re.Cls (Re.Lit ","%char))
                      (Re.Seq (Re.Cls Re.Space)
                         (Re.Seq
                            (Re.Opt (Re.Group 2
                                       (Re.Seq (Re.Word "abs/")
                                          (Re.Plus Re.Dot true))))
                            (Re.Cls (Re.Lit "."%char)))))
                   (Re.Seq (Re.Cls (Re.Lit "."%char)) Re.Eol)))))).

Definition is_period (c : ascii) : bool := Ascii.eqb c "."%char.

(** [m.group(n)] where only its text matters: a group that took no part in
    the match counts as the empty string, the two being equally false. *)
Definition group_text (n : nat) (caps : Re.captures) : string :=
  default "" (Re.group n caps).

(** [venue] and [doi] out of [obj_2.group(2)]. *)
Definition venue_and_doi (g2 : string) : result (string * string) :=
  let venue_det := Str.strip g2 in
  match Re.re_search pattern_3 venue_det with
  | None => Raised AttributeError
  | Some obj_3 => Ok (group_text 1 obj_3, group_text 2 obj_3)
  end.

(** The body of the loop of [references_dict] for one reference. *)
Definition extract_fields (ref : string) : result structured_reference :=
  match Re.re_search pattern_1 ref with
  | None => Raised AttributeError
  | Some obj =>
      let other := group_text 3 obj in
      match Re.re_search pattern_2 other with
      | None => Raised AttributeError
      | Some obj_2 =>
          let ttl := Str.strip_with is_period (group_text 1 obj_2) in
          if Str.is_empty (group_text 2 obj_2) then
            Ok (Row (group_text 1 obj) (group_text 2 obj) ttl "" "")
          else
            match venue_and_doi (group_text 2 obj_2) with
            | Raised e => Raised e
            | Ok (v, d) => Ok (Row (group_text 1 obj) (group_text 2 obj) ttl v d)
            end
      end
  end.

(** [ref_dict]: row index and row, in insertion order. *)
Definition table : Type := list (nat * structured_reference).

(** The loop [for i, ref in enumerate(references)], with [count] and the
    [break] at [count == 20]. *)
Fixpoint dict_loop (refs : list string) (i count : nat) (ref_dict : table)
    : result table :=
  match refs with
  | [] => Ok ref_dict
  | ref :: refs' =>
      let count := S count in
      match extract_fields ref with
      | Raised e => Raised e
      | Ok row =>
          let ref_dict := ref_dict ++ [(i, row)] in
          if (count =? 20)%nat then Ok ref_dict
          else dict_loop refs' (S i) count ref_dict
      end
  end.

(** [references_dict]: the rows of the data frame, or the exception. *)
Definition references_dict (refs : list string) : result table :=
  dict_loop refs 0%nat 0%nat [].

(** ** The heading search, the whole function and [main] *)

(** A page of the document: its plain text, [page.get_text()], and what
    [get_text("dict")] gives for its clipped part. *)
Record pdf_page : Type := PdfPage {
  get_text : string;
  layout : page
}.

(** [full_text]: the texts of the pages, concatenated. *)
Definition full_text (doc : list pdf_page) : string :=
  foldl (fun acc pg => acc +:+ get_text pg) "" doc.

(** ref_pattern, spaced out as under re.X:
    \n \s* ( References | REFERENCES | Bibliography ) \s* \n *)
Definition ref_pattern : Re.regex :=
  Re.Seq (Re.Cls (Re.Lit Chr.newline))
    (Re.Seq (Re.Star Re.Space true)
       (Re.Seq heading_re
          (Re.Seq (Re.Star Re.Space true) (Re.Cls (Re.Lit Chr.newline))))).

(** [re.search(r, s).span()]: start and end of the first match, the end
    being the start plus the length of group 0, the text matched. *)
Fixpoint search_span_from (r : Re.regex) (pos : nat) (s : string)
    : option (nat * nat) :=
  match Re.run (Re.Group 0 r) (pos, s) [] Re.accept with
  | Some caps => Some (pos, (pos + String.length (group_text 0 caps))%nat)
  | None =>
      match s with
      | String _ s' => search_span_from r (S pos) s'
      | EmptyString => None
      end
  end.

Definition search_span (r : Re.regex) (s : string) : option (nat * nat) :=
  search_span_from r 0%nat s.

(** The loop [for page_num in range(len(doc))] that looks for the page of
    [ref_start_char]; [ref_start_page] stays 0 when no page is found. *)
Fixpoint find_start_page (texts : list string)
    (page_num current_char ref_start_char : nat) : nat :=
  match texts with
  | [] => 0%nat
  | page_text :: texts' =>
      if (ref_start_char <=? current_char + String.length page_text)%nat
      then page_num
      else find_start_page texts' (S page_num)
             (current_char + String.length page_text)%nat ref_start_char
  end.

(** [extract_acl_references] as a whole, from the opened document. *)
Definition extract_acl_references_doc (doc : list pdf_page)
    : result (list string) :=
  match search_span ref_pattern (full_text doc) with
  | None => Ok []
  | Some (_, ref_start_char) =>
      extract_acl_references (layout <$> doc)
        (find_start_page (get_text <$> doc) 0 0 ref_start_char)
  end.

(** [c in chars] *)
Fixpoint in_chars (chars : string) (c : ascii) : bool :=
  match chars with
  | EmptyString => false
  | String a chars' => Ascii.eqb c a || in_chars chars' c
  end.

(** The path that [main] writes to:
    [f"{pdf_loc+pdf_name.strip('.pdf')}.txt"]. *)
Definition output_path (pdf_loc pdf_name : string) : string :=
  (pdf_loc +:+ Str.strip_with (in_chars ".pdf") pdf_name) +:+ ".txt".

(** [main]: the path and the rows of the table written there, or the
    exception that stops it. *)
Definition main (pdf_loc pdf_name : string) (doc : list pdf_page)
    : result (string * table) :=
  match extract_acl_references_doc doc with
  | Raised e => Raised e
  | Ok refs =>
      match references_dict refs with
      | Raised e => Raised e
      | Ok ref_df => Ok (output_path pdf_loc pdf_name, ref_df)
      end
  end.

(** * Notions used to state the properties *)

(** The x positions of the lines of one (page, column), in list order. *)
Definition xs_at (k : nat * Z) (ls : list line) : list Q :=
  x_pos <$> filter (fun l => line_key l = k) ls.

(** The line gets past the heading search and the appendix checks, to the
    classification by indentation. *)
Definition reaches_classification (st : state) (l : line) : Prop :=
  in_references st = true ∧ Str.strip (text l) ≠ "A" ∧
  prev_was_A st = false ∧ Re.re_match appendix_re (text l) = None.

(** The accumulator never ends with a hyphen. *)
Definition no_trailing_hyphen (st : state) : Prop :=
  Str.last (current_ref st) ≠ Some "-"%char.

(** When the accumulator is not empty, [old_text] is the text of a line
    seen before. *)
Definition last_line_recorded (seen : list line) (st : state) : Prop :=
  current_ref st ≠ "" → ∃ l0, l0 ∈ seen ∧ old_text st = text l0.

(** The shape "<authors>. <year>. <rest>": authors on one line and not
    empty, a period, a whitespace character, 19 or 20 and two digits, a
    period, a whitespace character. *)
Definition year_shape (s : string) : Prop :=
  ∃ (auth : string) (w1 y1 y2 y3 y4 w2 : ascii) (rest : string),
    s = auth +:+ String "." (String w1 (String y1 (String y2 (String y3
          (String y4 (String "." (String w2 rest))))))) ∧
    auth ≠ "" ∧
    Str.all (Re.cls_ok Re.Dot) auth = true ∧
    Chr.isspace w1 = true ∧
    ((y1 = "1"%char ∧ y2 = "9"%char) ∨ (y1 = "2"%char ∧ y2 = "0"%char)) ∧
    Chr.isdecimal y3 = true ∧ Chr.isdecimal y4 = true ∧
    Chr.isspace w2 = true.

(** A reference for which the body of the loop raises nothing. *)
Definition well_formed (ref : string) : Prop :=
  ∃ row, extract_fields ref = Ok row.

Definition is_ok {A : Type} (x : result A) : bool :=
  match x with Ok _ => true | Raised _ => false end.

(** Twenty-five references "Smith A. 2020. ..." to "Smith Y. 2020. ...". *)
Definition twenty_five_references : list string :=
  (fun k : nat =>
     "Smith " +:+ String (ascii_of_nat (65 + k))
       ". 2020. A Study of Things. In Proceedings of X, pages 1-10.")
  <$> seq 0 25.

(** A page of two blocks, the second with a line of blanks that is not
    collected. *)
Definition sample_doc : list page :=
  [Page 595
     [Block 0 (BBox 72 88 290 100)
        [TextLine (BBox 72 88 140 100) ["Refer"; "ences"]];
      Block 0 (BBox 72 100 290 136)
        [TextLine (BBox 72 100 290 112) ["Smith, J. 2020. A Study of trans-"];
         TextLine (BBox 82 112 290 124) ["former Things."];
         TextLine (BBox 82 124 290 130) ["  "];
         TextLine (BBox 82 130 290 136) ["In Proceedings of X."]]]].

(** One character class read off a successful run: the text goes on with a
    character of the class. *)
Ltac read_cls H c s Hc :=
  cbn [Re.run fst snd] in H;
  match type of H with
  | match ?t with EmptyString => _ | String _ _ => _ end = Some _ =>
      destruct t as [|c s]; [discriminate H|]
  end;
  match type of H with
  | (if ?b then _ else _) = Some _ =>
      destruct b eqn:Hc; [|discriminate H]
  end;
  cbn [Re.cls_ok] in Hc.

(** The state a loop ends in, if it does not raise. *)
Definition flow_state (f : flow) : option state :=
  match f with
  | Next st | Break st => Some st
  | Throw _ => None
  end.

(** The heading pattern is found in the text of the line. *)
Definition is_heading (l : line) : bool :=
  Re.found (Re.re_search heading_re (text l)).

(** A text with no whitespace at either end. *)
Definition trimmed (s : string) : Prop :=
  (∀ c, Str.first s = Some c → Chr.isspace c = false) ∧
  (∀ c, Str.last s = Some c → Chr.isspace c = false).

(** [ref_count] after the last [if current_ref:], the total that the debug
    trace prints. *)
Definition final_ref_count (st : state) : nat :=
  if Str.is_empty (current_ref st) then ref_count st else S (ref_count st).

(** The order of the sort keys: [a] is not after [b]. *)
Definition key_le (a b : line) : Prop := key_lt b a = false.

(** Two lines with the same place in the order of the sort keys. *)
Definition key_eqv (a b : line) : Prop := key_le a b ∧ key_le b a.

Global Instance key_eqv_dec a b : Decision (key_eqv a b).
Proof. unfold key_eqv, key_le. apply _. Defined.

(** A year as [pattern_1] takes it: 19 or 20 and two digits. *)
Definition year_ok (y : string) : Prop :=
  ∃ y3 y4 : ascii,
    (y = String "1" (String "9" (String y3 (String y4 "")))
     ∨ y = String "2" (String "0" (String y3 (String y4 "")))) ∧
    Chr.isdecimal y3 = true ∧ Chr.isdecimal y4 = true.

(** A pattern without capturing groups. *)
Fixpoint no_groups (r : Re.regex) : bool :=
  match r with
  | Re.Seq r1 r2 | Re.Alt r1 r2 => no_groups r1 && no_groups r2
  | Re.Group _ _ => false
  | Re.Look r1 => no_groups r1
  | _ => true
  end.

(** The two ways of a successful alternation. *)
Ltac split_alt H :=
  match type of H with
  | match ?x with Some _ => _ | None => _ end = Some _ =>
      let Hx := fresh "Hx" in
      destruct x eqn:Hx; [injection H as ->; rename Hx into H|clear Hx]
  end.

(** The number of characters of the full text up to the end of page [q]. *)
Definition chars_through (doc : list pdf_page) (q : nat) : nat :=
  String.length (full_text (take (S q) doc)).

(** A document of three pages, the heading on the second one. *)
Definition nl : string := String Chr.newline "".

Definition sample_pdf : list pdf_page :=
  [PdfPage ("A Study of Things" +:+ nl +:+ "We study things." +:+ nl)
     (Page 595
        [Block 0 (BBox 72 88 290 112)
           [TextLine (BBox 72 88 200 100) ["A Study of Things"];
            TextLine (BBox 72 100 200 112) ["We study things."]]]);
   PdfPage ("They are many." +:+ nl +:+ "References" +:+ nl
            +:+ "Smith, J. 2020. Things." +:+ nl)
     (Page 595
        [Block 0 (BBox 72 88 290 100)
           [TextLine (BBox 72 88 200 100) ["They are many."]];
         Block 0 (BBox 72 100 290 124)
           [TextLine (BBox 72 100 140 112) ["References"];
            TextLine (BBox 72 112 250 124) ["Smith, J. 2020. Things."]]]);
   PdfPage ("Doe, A. 2019. Another paper." +:+ nl)
     (Page 595
        [Block 0 (BBox 72 88 290 100)
           [TextLine (BBox 72 88 250 100) ["Doe, A. 2019. Another paper."]]])].

(** A line of a bibliography entry with nothing special about it: its text
    is stripped, has no hyphen at either end, is not empty, is not the
    appendix label and does not look like an appendix heading. *)
Definition plain (l : line) : Prop :=
  Str.strip (text l) = text l ∧
  Str.strip_hyphens (text l) = text l ∧
  text l ≠ "" ∧ text l ≠ "A" ∧
  Re.re_match appendix_re (text l) = None.

(** An entry laid out as expected: a first line at the baseline that is
    not a number, then lines indented past the tolerance. *)
Definition entry_ok (m : gmap (nat * Z) Q) (en : line * list line) : Prop :=
  plain en.1 ∧ Str.isnumeric (text en.1) = false ∧
  (∀ tol, is_new_ref m tol en.1 = true) ∧
  Forall (fun c => plain c ∧ ∀ tol, is_new_ref m tol c = false) en.2.

(** The lines of an entry, and of a list of entries. *)
Definition entry_lines (en : line * list line) : list line := en.1 :: en.2.

(** The texts of the lines of an entry, joined by single spaces. *)
Definition joined (en : line * list line) : string :=
  foldl (fun acc c => acc +:+ " " +:+ text c) (text en.1) en.2.

(** One literal character read off a successful run. *)
Ltac read_lit H :=
  let c := fresh "c" in
  let s := fresh "s" in
  let Hc := fresh "Hc" in
  read_cls H c s Hc; apply Ascii.eqb_eq in Hc; subst c.

(** Two states that the rest of the loop cannot tell apart: they differ at
    most in [tolerance] and in how often a page is in [page_list]. *)
Definition same_but_pages (st st' : state) : Prop :=
  references st = references st' ∧ current_ref st = current_ref st' ∧
  in_references st = in_references st' ∧ prev_was_A st = prev_was_A st' ∧
  ref_count st = ref_count st' ∧ old_text st = old_text st' ∧
  ∀ p, page_in p (page_list st) = page_in p (page_list st').

(** The same way out of the loop, in states that cannot be told apart. *)
Definition same_flow (f f' : flow) : Prop :=
  match f, f' with
  | Next st, Next st' | Break st, Break st' => same_but_pages st st'
  | Throw e, Throw e' => e = e'
  | _, _ => False
  end.

(** * Properties *)

(** ** Strings *)

Section StringFacts.

Implicit Types (s t : string) (c : ascii) (p q : ascii -> bool).

Lemma is_empty_true s : Str.is_empty s = true ↔ s = "".
Proof. by destruct s. Qed.

Lemma is_empty_false s : Str.is_empty s = false ↔ s ≠ "".
Proof. by destruct s. Qed.

Lemma is_empty_app s t :
  Str.is_empty (s +:+ t) = Str.is_empty s && Str.is_empty t.
Proof. by destruct s. Qed.

Lemma last_cons c s :
  Str.last (String c s) = if Str.is_empty s then Some c else Str.last s.
Proof. by destruct s. Qed.

Lemma last_app s t :
  Str.last (s +:+ t) = if Str.is_empty t then Str.last s else Str.last t.
Proof.
  induction s as [|c s IH].
  - by destruct t.
  - change (String c s +:+ t) with (String c (s +:+ t)).
    rewrite !last_cons, is_empty_app, IH.
    destruct (Str.is_empty s), (Str.is_empty t) eqn:Ht; try done.
Qed.

Lemma last_is_Some s : s ≠ "" → ∃ c, Str.last s = Some c.
Proof.
  induction s as [|c s IH]; [done|]. intros _. rewrite last_cons.
  destruct (Str.is_empty s) eqn:He; [eauto|].
  by apply IH, is_empty_false.
Qed.

Lemma last_rstrip p s c : Str.last (Str.rstrip p s) = Some c → p c = false.
Proof.
  induction s as [|a s IH]; [done|]. cbn [Str.rstrip].
  destruct (Str.is_empty (Str.rstrip p s)) eqn:He; cbn [andb].
  - destruct (p a) eqn:Hp; [done|]. rewrite last_cons, He. by intros [= <-].
  - rewrite last_cons, He. exact IH.
Qed.

Lemma first_lstrip p s c : Str.first (Str.lstrip p s) = Some c → p c = false.
Proof.
  induction s as [|a s IH]; [done|]. cbn [Str.lstrip].
  destruct (p a) eqn:Hp; [exact IH|]. by intros [= <-].
Qed.

Lemma first_rstrip p s c :
  Str.first (Str.rstrip p s) = Some c → Str.first s = Some c.
Proof.
  destruct s as [|a s]; [done|]. cbn [Str.rstrip].
  by destruct (Str.is_empty (Str.rstrip p s) && p a).
Qed.

Lemma first_strip_with p s c :
  Str.first (Str.strip_with p s) = Some c → p c = false.
Proof. intros H. by eapply first_lstrip, first_rstrip. Qed.

Lemma last_strip_with p s c :
  Str.last (Str.strip_with p s) = Some c → p c = false.
Proof. apply last_rstrip. Qed.

(** A text made of characters outside the stripped set is left as it is. *)
Lemma strip_with_all p q s :
  (∀ c, q c = true → p c = false) →
  Str.all q s = true → Str.strip_with p s = s.
Proof.
  intros Hqp Hall. unfold Str.strip_with.
  assert (Hl : Str.lstrip p s = s).
  { destruct s as [|a s]; [done|]. cbn in *.
    apply andb_true_iff in Hall as [Ha _]. by rewrite (Hqp a Ha). }
  rewrite Hl. clear Hl. induction s as [|a s IH]; [done|].
  cbn in *. apply andb_true_iff in Hall as [Ha Hs].
  by rewrite (Hqp a Ha), andb_false_r, (IH Hs).
Qed.

Lemma numeric_not_hyphen c : Chr.isnumeric c = true → Chr.is_hyphen c = false.
Proof.
  unfold Chr.is_hyphen, Chr.hyphen. intros Hn.
  destruct (Ascii.eqb_spec c "-"%char) as [->|]; [|done].
  by vm_compute in Hn.
Qed.

Lemma strip_hyphens_numeric s :
  Str.isnumeric s = true → Str.strip_hyphens s = s.
Proof.
  unfold Str.isnumeric. intros [_ Hall]%andb_true_iff.
  by eapply strip_with_all; [apply numeric_not_hyphen|].
Qed.

Lemma strip_hyphens_last s : Str.last (Str.strip_hyphens s) ≠ Some "-"%char.
Proof. by intros ?%last_strip_with. Qed.

Lemma strip_hyphens_first s : Str.first (Str.strip_hyphens s) ≠ Some "-"%char.
Proof. by intros ?%first_strip_with. Qed.

End StringFacts.

(** ** The sort of the lines *)

Lemma insert_line_Permutation l sorted : insert_line l sorted ≡ₚ l :: sorted.
Proof.
  induction sorted as [|h t IH]; [done|]. cbn [insert_line].
  destruct (key_lt l h); [done|]. by rewrite IH, Permutation_swap.
Qed.

Lemma foldl_insert_line_Permutation ls : ∀ acc,
  foldl (fun acc l => insert_line l acc) acc ls ≡ₚ acc ++ ls.
Proof.
  induction ls as [|l ls IH]; intros acc; cbn [foldl].
  - by rewrite app_nil_r.
  - rewrite IH, insert_line_Permutation. cbn [app].
    apply Permutation_middle.
Qed.

Lemma sort_lines_Permutation ls : sort_lines ls ≡ₚ ls.
Proof. apply (foldl_insert_line_Permutation ls []). Qed.

(** ** Baselines *)

Section Baselines.

Implicit Types (ls : list line) (k : nat * Z) (l : line).

Lemma xs_at_cons_eq l ls : xs_at (line_key l) (l :: ls) = x_pos l :: xs_at (line_key l) ls.
Proof. unfold xs_at. by rewrite filter_cons_True. Qed.

Lemma xs_at_cons_ne k l ls : line_key l ≠ k → xs_at k (l :: ls) = xs_at k ls.
Proof. intros Hne. unfold xs_at. by rewrite filter_cons_False. Qed.

Lemma elem_of_xs_at k ls (x : Q) :
  x ∈ xs_at k ls ↔ ∃ l, l ∈ ls ∧ line_key l = k ∧ x_pos l = x.
Proof.
  unfold xs_at. rewrite list_elem_of_fmap. split.
  - intros (l & -> & Hl). apply list_elem_of_filter in Hl as [Hk Hl]. eauto.
  - intros (l & Hl & Hk & <-). exists l. split; [done|].
    by apply list_elem_of_filter.
Qed.

Lemma xs_at_Permutation k ls ls' : ls ≡ₚ ls' → xs_at k ls ≡ₚ xs_at k ls'.
Proof. intros Hp. unfold xs_at. by rewrite Hp. Qed.

Lemma column_fold_lookup ls : ∀ (m : gmap (nat * Z) (list Q)) k,
  foldl (fun m l =>
           <[line_key l := default [] (m !! line_key l) ++ [x_pos l]]> m)
        m ls !! k
  = match xs_at k ls with
    | [] => m !! k
    | xs => Some (default [] (m !! k) ++ xs)
    end.
Proof.
  induction ls as [|l ls IH]; intros m k; [done|].
  cbn [foldl]. rewrite IH. destruct (decide (line_key l = k)) as [<-|Hne].
  - rewrite xs_at_cons_eq, lookup_insert_eq. cbn [default].
    destruct (xs_at (line_key l) ls) as [|x xs]; [done|].
    unfold id. by rewrite <- app_assoc.
  - by rewrite xs_at_cons_ne, lookup_insert_ne.
Qed.

Lemma column_min_x_lookup ls k :
  column_min_x ls !! k
  = match xs_at k ls with [] => None | xs => Some xs end.
Proof.
  unfold column_min_x. rewrite column_fold_lookup, lookup_empty.
  by destruct (xs_at k ls).
Qed.

(** Every list that [min] is applied to has an item. *)
Lemma column_min_x_nonempty ls k xs :
  column_min_x ls !! k = Some xs → xs ≠ [].
Proof.
  rewrite column_min_x_lookup. destruct (xs_at k ls); naive_solver.
Qed.

Lemma min_x_map_lookup ls k :
  min_x_map ls !! k = py_min (xs_at k ls).
Proof.
  unfold min_x_map. rewrite lookup_omap, column_min_x_lookup.
  by destruct (xs_at k ls).
Qed.

(** [min] keeps an item of the list that is below all the others. *)
Lemma foldl_min_spec (xs : list Q) : ∀ (x : Q),
  let b := foldl (fun m y => if Qltb y m then y else m) x xs in
  b ∈ x :: xs ∧ ∀ y, y ∈ x :: xs → (b <= y)%Q.
Proof.
  induction xs as [|z xs IH]; intros x; cbn [foldl].
  - split; [apply list_elem_of_here|].
    intros y Hy. apply list_elem_of_singleton in Hy as ->. apply Qle_refl.
  - destruct (IH (if Qltb z x then z else x)) as [Hin Hle].
    set (b := foldl _ _ xs) in *.
    assert (Hb : (b <= x)%Q ∧ (b <= z)%Q).
    { unfold Qltb in *. destruct (Qle_bool x z) eqn:Hxz; cbn [negb] in *.
      - apply Qle_bool_iff in Hxz.
        assert (b <= x)%Q by (apply Hle, list_elem_of_here).
        split; [done|]. by eapply Qle_trans.
      - assert (z <= x)%Q.
        { apply Qnot_lt_le. intros Hlt. apply Qlt_le_weak in Hlt.
          apply Qle_bool_iff in Hlt. congruence. }
        assert (b <= z)%Q by (apply Hle, list_elem_of_here).
        split; [|done]. by eapply Qle_trans. }
    split.
    + apply elem_of_cons in Hin as [Hin|Hin].
      * rewrite Hin. destruct (Qltb z x).
        -- apply list_elem_of_further, list_elem_of_here.
        -- apply list_elem_of_here.
      * by do 2 apply list_elem_of_further.
    + intros y Hy. apply elem_of_cons in Hy as [->|Hy]; [apply Hb|].
      apply elem_of_cons in Hy as [->|Hy]; [apply Hb|].
      by apply Hle, list_elem_of_further.
Qed.

Lemma py_min_spec (xs : list Q) (b : Q) :
  py_min xs = Some b → b ∈ xs ∧ ∀ y, y ∈ xs → (b <= y)%Q.
Proof.
  destruct xs as [|x xs]; [done|]. cbn [py_min]. intros [= <-].
  apply foldl_min_spec.
Qed.

Lemma py_min_is_Some (xs : list Q) : xs ≠ [] → is_Some (py_min xs).
Proof. destruct xs; [done|]. cbn. eauto. Qed.

Lemma py_min_Permutation (xs ys : list Q) (b : Q) :
  xs ≡ₚ ys → py_min xs = Some b → ∃ b', py_min ys = Some b' ∧ (b' == b)%Q.
Proof.
  intros Hp Hb. destruct (py_min_is_Some ys) as [b' Hb'].
  { intros ->. apply Permutation_nil_r in Hp as ->. done. }
  exists b'. split; [done|].
  apply py_min_spec in Hb as [Hin Hle], Hb' as [Hin' Hle'].
  apply Qle_antisym.
  - apply Hle'. by rewrite <- Hp.
  - apply Hle. by rewrite Hp.
Qed.

Lemma min_x_map_Permutation ls ls' k (b : Q) :
  ls ≡ₚ ls' → min_x_map ls !! k = Some b →
  ∃ b' : Q, min_x_map ls' !! k = Some b' ∧ (b' == b)%Q.
Proof.
  intros Hp. rewrite !min_x_map_lookup.
  apply py_min_Permutation. by apply xs_at_Permutation.
Qed.

(** The sort of [all_lines] before the baselines are computed does not
    change them. *)
Lemma min_x_map_sort_lines ls k (b : Q) :
  min_x_map ls !! k = Some b →
  ∃ b' : Q, min_x_map (sort_lines ls) !! k = Some b' ∧ (b' == b)%Q.
Proof. apply min_x_map_Permutation. symmetry. apply sort_lines_Permutation. Qed.

End Baselines.

(** C2. The baselines are kept per (page, column) pair.  [min_x_map] has an
    entry for the pair of page [p] and column [c] exactly when some line is
    on page [p] in column [c]; that entry is the x position of one of the
    lines of page [p] and column [c] and is below the x position of every
    such line, so it is their minimum, and it is the baseline that each of
    these lines is compared with; and processing the lines in any other
    order gives the same number for the pair. *)
Theorem baseline_is_column_minimum
    (all_lines all_lines' : list line) (p : nat) (c : Z) :
  all_lines ≡ₚ all_lines' →
  ((∃ l, l ∈ all_lines ∧ page_num l = p ∧ column l = c)
     ↔ is_Some (min_x_map all_lines !! (p, c))) ∧
  (∀ b : Q, min_x_map all_lines !! (p, c) = Some b →
     (∃ l, l ∈ all_lines ∧ page_num l = p ∧ column l = c ∧ x_pos l = b) ∧
     (∀ l, l ∈ all_lines → page_num l = p → column l = c →
        (b <= x_pos l)%Q ∧ baseline (min_x_map all_lines) l = b) ∧
     (∃ b' : Q, min_x_map all_lines' !! (p, c) = Some b' ∧ (b' == b)%Q)).
Proof.
  intros Hp.
  assert (Hkey : ∀ l, line_key l = (p, c) ↔ page_num l = p ∧ column l = c).
  { intros l. unfold line_key. split; [by intros [= -> ->]|by intros [-> ->]]. }
  split.
  - rewrite min_x_map_lookup. split.
    + intros (l & Hl & Hk). apply Hkey in Hk. apply py_min_is_Some.
      intros Hnil.
      assert (Hx : x_pos l ∈ xs_at (p, c) all_lines)
        by (apply elem_of_xs_at; eauto).
      rewrite Hnil in Hx. by apply not_elem_of_nil in Hx.
    + intros [b Hb]. apply py_min_spec in Hb as [Hin _].
      apply elem_of_xs_at in Hin as (l & Hl & Hk & _).
      apply Hkey in Hk. eauto.
  - intros b Hb. split; [|split].
    + rewrite min_x_map_lookup in Hb. apply py_min_spec in Hb as [Hin _].
      apply elem_of_xs_at in Hin as (l & Hl & Hk & Hx).
      apply Hkey in Hk as [Hpg Hcol]. eauto.
    + intros l Hl Hpg Hcol.
      assert (Hk : line_key l = (p, c)) by (by apply Hkey).
      split.
      * rewrite min_x_map_lookup in Hb. apply py_min_spec in Hb as [_ Hle].
        apply Hle, elem_of_xs_at. eauto.
      * unfold baseline. by rewrite Hk, Hb.
    + by eapply min_x_map_Permutation.
Qed.

Lemma baseline_is_column_minimum_witness :
  let a := Line 0 0 100 72 "Smith, J. 2020." in
  let b := Line 0 0 112 82 "A Study of Things." in
  let c := Line 1 0 60 75 "Doe, A. 2019." in
  let d := Line 1 0 72 60 "Another paper." in
  [a; b; c; d] ≡ₚ [d; b; c; a] ∧
  min_x_map [a; b; c; d] !! (0%nat, 0) = Some 72%Q ∧
  min_x_map [a; b; c; d] !! (1%nat, 0) = Some 60%Q ∧
  baseline (min_x_map [a; b; c; d]) c = 60%Q ∧
  ∃ b' : Q, min_x_map [d; b; c; a] !! (1%nat, 0) = Some b' ∧ (b' == 60)%Q.
Proof.
  intros a b c d.
  assert (Hp : [a; b; c; d] ≡ₚ [d; b; c; a]).
  { change [a; b; c; d] with ([a] ++ [b; c] ++ [d]).
    change [d; b; c; a] with ([d] ++ [b; c] ++ [a]).
    rewrite (Permutation_app_comm [a]), (Permutation_app_comm [d]).
    rewrite <- !app_assoc. apply Permutation_app_head, Permutation_app_comm. }
  assert (H0 : min_x_map [a; b; c; d] !! (0%nat, 0) = Some 72%Q)
    by (vm_compute; reflexivity).
  assert (H1 : min_x_map [a; b; c; d] !! (1%nat, 0) = Some 60%Q)
    by (vm_compute; reflexivity).
  assert (Hc : c ∈ [a; b; c; d])
    by (do 2 apply list_elem_of_further; apply list_elem_of_here).
  destruct (proj2 (baseline_is_column_minimum
                     [a; b; c; d] [d; b; c; a] 1%nat 0 Hp) 60%Q H1)
    as (_ & Hle & Hperm).
  split; [exact Hp|]. split; [exact H0|]. split; [exact H1|].
  split; [exact (proj2 (Hle c Hc eq_refl eq_refl))|exact Hperm].
Defined.

(** ** Classification by indentation *)

Lemma is_new_ref_iff (m : gmap (nat * Z) Q) (tol : Q) (l : line) :
  is_new_ref m tol l = true
  ↔ (Qabs (x_pos l - baseline m l) <= column_tolerance tol (column l))%Q.
Proof. unfold is_new_ref. apply Qle_bool_iff. Qed.

Lemma is_new_ref_false_iff (m : gmap (nat * Z) Q) (tol : Q) (l : line) :
  is_new_ref m tol l = false
  ↔ (column_tolerance tol (column l) < Qabs (x_pos l - baseline m l))%Q.
Proof.
  rewrite <- not_true_iff_false, is_new_ref_iff. split.
  - apply Qnot_le_lt.
  - apply Qlt_not_le.
Qed.

Lemma Qabs_offset (x b d : Q) : (x == b + d)%Q → (Qabs (x - b) == Qabs d)%Q.
Proof. intros ->. apply Qabs_wd. ring. Qed.

(** C1. A line whose (page, column) has a baseline is a new-reference start
    exactly when its x position is within the tolerance of the baseline, the
    tolerance being 3 in column 0 and 15 in column 1; one unit past the
    tolerance it is a continuation. *)
Theorem new_reference_iff_within_tolerance
    (m : gmap (nat * Z) Q) (tol : Q) (l : line) (b : Q) :
  m !! line_key l = Some b →
  (column l = 0 →
     (is_new_ref m tol l = true ↔ (Qabs (x_pos l - b) <= 3)%Q) ∧
     ((x_pos l == b + 3 + 1)%Q → is_new_ref m tol l = false)) ∧
  (column l = 1 →
     (is_new_ref m tol l = true ↔ (Qabs (x_pos l - b) <= 15)%Q) ∧
     ((x_pos l == b + 15 + 1)%Q → is_new_ref m tol l = false)).
Proof.
  intros Hb.
  assert (Hbase : baseline m l = b) by (unfold baseline; by rewrite Hb).
  split; intros Hc; (split; [rewrite is_new_ref_iff, Hbase, Hc; done|]);
    intros Hx; apply is_new_ref_false_iff; rewrite Hbase, Hc.
  - rewrite (Qabs_offset (x_pos l) b (3 + 1)); [reflexivity|].
    rewrite Hx. ring.
  - rewrite (Qabs_offset (x_pos l) b (15 + 1)); [reflexivity|].
    rewrite Hx. ring.
Qed.

Lemma new_reference_iff_within_tolerance_witness :
  let m : gmap (nat * Z) Q := {[ (0%nat, 1) := 310%Q ]} in
  let l := Line 0 1 100 326 "pages 1-10." in
  m !! line_key l = Some 310%Q ∧ is_new_ref m 3 l = false.
Proof.
  intros m l.
  assert (Hb : m !! line_key l = Some 310%Q) by (vm_compute; reflexivity).
  split; [exact Hb|].
  apply (new_reference_iff_within_tolerance m 3 l 310 Hb); reflexivity.
Defined.

(** C5 as stated fails: one unit right of the baseline in column 0 the line
    is a new-reference start, not a continuation, and the two-line page
    below comes out as two references. *)
Lemma small_indent_is_not_continuation :
  let a := Line 0 0 100 72 "Smith, J. 2020. A Study of Things." in
  let b := Line 0 0 112 73 "Doe, A. 2019. Another paper." in
  let page := [Line 0 0 88 72 "References"; a; b] in
  min_x_map page !! line_key b = Some 72%Q ∧
  (x_pos b == 72 + 1)%Q ∧
  is_new_ref (min_x_map page) 3 b ≠ false ∧
  extract_from_lines page
  = Ok ["Smith, J. 2020. A Study of Things."; "Doe, A. 2019. Another paper."].
Proof.
  intros a b page. split; [vm_compute; reflexivity|].
  split; [reflexivity|]. split; [vm_compute; discriminate|].
  vm_compute. reflexivity.
Qed.

(** C5, amended. A line of column 0 at x = baseline + d with d from 1 to 3
    is a new-reference start, and so is a line of column 1 at
    x = baseline + d with d from 1 to 15. *)
Theorem small_indent_is_new_reference
    (m : gmap (nat * Z) Q) (tol : Q) (l : line) (b d : Q) :
  m !! line_key l = Some b →
  (x_pos l == b + d)%Q →
  (column l = 0 ∧ (1 <= d)%Q ∧ (d <= 3)%Q) ∨
  (column l = 1 ∧ (1 <= d)%Q ∧ (d <= 15)%Q) →
  is_new_ref m tol l = true.
Proof.
  intros Hb Hx Hd. apply is_new_ref_iff.
  assert (Hbase : baseline m l = b) by (unfold baseline; by rewrite Hb).
  rewrite Hbase, (Qabs_offset _ _ _ Hx).
  assert (Hpos : (0 <= d)%Q).
  { apply Qle_trans with 1%Q; [done|]. destruct Hd as [(_&?&_)|(_&?&_)]; done. }
  rewrite (Qabs_pos d Hpos).
  destruct Hd as [(-> & _ & Hle)|(-> & _ & Hle)]; exact Hle.
Qed.

Lemma small_indent_is_new_reference_witness :
  let m : gmap (nat * Z) Q := {[ (0%nat, 0) := 72%Q ]} in
  let l := Line 0 0 112 75 "Doe, A. 2019. Another paper." in
  m !! line_key l = Some 72%Q ∧ (x_pos l == 72 + 3)%Q ∧
  is_new_ref m 3 l = true.
Proof.
  intros m l.
  assert (Hb : m !! line_key l = Some 72%Q) by (vm_compute; reflexivity).
  assert (Hx : (x_pos l == 72 + 3)%Q) by reflexivity.
  split; [exact Hb|]. split; [exact Hx|].
  apply (small_indent_is_new_reference m 3 l 72 3 Hb Hx).
  left. split; [reflexivity|]. split; discriminate.
Defined.

(** ** The parse loop *)

Lemma step_classifies m st l :
  reaches_classification st l → step m st l = accumulate m st l.
Proof.
  intros (Hin & HA & Hprev & Happ). unfold step.
  apply String.eqb_neq in HA. by rewrite Hin, HA, Hprev, Happ.
Qed.

Lemma parse_loop_app m ls1 : ∀ st ls2,
  parse_loop m st (ls1 ++ ls2)
  = match parse_loop m st ls1 with
    | Next st' => parse_loop m st' ls2
    | f => f
    end.
Proof.
  induction ls1 as [|l ls1 IH]; intros st ls2; [done|].
  cbn [app parse_loop]. destruct (step m st l); [apply IH|done..].
Qed.

(** A property of the state kept by every step holds when the loop is left. *)
Lemma parse_loop_preserves (P : state → Prop) m :
  (∀ st l st', P st → step m st l = Next st' → P st') →
  ∀ ls st st', P st → parse_loop m st ls = Next st' → P st'.
Proof.
  intros Hstep. induction ls as [|l ls IH]; intros st st' HP; cbn.
  - by intros [= <-].
  - destruct (step m st l) eqn:Hs; [|done..]. eauto.
Qed.

Lemma join_continuation_no_trailing_hyphen st l st' :
  no_trailing_hyphen st → join_continuation st l = Ok st' →
  no_trailing_hyphen st'.
Proof.
  unfold no_trailing_hyphen, join_continuation. intros Hinv.
  destruct (Str.is_empty (current_ref st)) eqn:He.
  - intros [= <-]. apply strip_hyphens_last.
  - destruct (Str.last (old_text st)) as [c|]; [|done].
    destruct (Ascii.eqb c Chr.hyphen); intros [= <-]; cbn [current_ref set_current_ref].
    + rewrite last_app.
      destruct (Str.is_empty (Str.strip_hyphens (text l))); [done|].
      apply strip_hyphens_last.
    + rewrite !last_app.
      destruct (Str.is_empty (Str.strip_hyphens (text l))).
      * cbn. discriminate.
      * apply strip_hyphens_last.
Qed.

Lemma step_no_trailing_hyphen m st l st' :
  no_trailing_hyphen st → step m st l = Next st' → no_trailing_hyphen st'.
Proof.
  intros Hinv. unfold step.
  destruct (negb (in_references st)).
  { destruct (Re.found _); by intros [= <-]. }
  destruct (String.eqb _ _); [by intros [= <-]|].
  destruct (prev_was_A st); [done|].
  destruct (Re.found _).
  { destruct (page_in _ _); [by intros [= <-]|done]. }
  unfold accumulate. destruct (is_new_ref _ _ _).
  - destruct (Str.isnumeric _); intros [= <-]; [done|].
    apply strip_hyphens_last.
  - destruct (join_continuation _ l) as [st3|] eqn:Hj; [|done].
    intros [= <-]. by eapply join_continuation_no_trailing_hyphen in Hj.
Qed.

Lemma parse_loop_no_trailing_hyphen m ls st :
  parse_loop m init_state ls = Next st → no_trailing_hyphen st.
Proof.
  apply (parse_loop_preserves no_trailing_hyphen m).
  - apply step_no_trailing_hyphen.
  - done.
Qed.

(** [old_text] is the text of the last line that was accumulated: a step
    either leaves the references, the accumulator and [old_text] as they
    were, the line adding nothing, or it records the text of its line. *)
Lemma step_skips_or_records m st l st' :
  step m st l = Next st' →
  (references st' = references st ∧ current_ref st' = current_ref st ∧
   old_text st' = old_text st) ∨
  old_text st' = text l.
Proof.
  unfold step.
  destruct (negb (in_references st)).
  { destruct (Re.found _); intros [= <-]; by left. }
  destruct (String.eqb _ _); [intros [= <-]; by left|].
  destruct (prev_was_A st); [done|].
  destruct (Re.found _).
  { destruct (page_in _ _); [intros [= <-]; by left|done]. }
  unfold accumulate. destruct (is_new_ref _ _ _).
  - destruct (Str.isnumeric _); intros [= <-]; [by left|by right].
  - destruct (join_continuation _ l); [|done]. intros [= <-]. by right.
Qed.

(** C3. A continuation line joined to an accumulator that is not empty: when
    [old_text], the text of the line accumulated before it, ends with a
    hyphen, the text of the line, its leading and trailing hyphens stripped,
    is concatenated directly; otherwise after one space.  No hyphen is left
    at the seam: the accumulator does not end with one and the stripped text
    neither starts nor ends with one. *)
Theorem continuation_join_rule m prefix st l c :
  parse_loop m init_state prefix = Next st →
  reaches_classification st l →
  is_new_ref m (tolerance st) l = false →
  current_ref st ≠ "" →
  Str.last (old_text st) = Some c →
  ∃ st', step m st l = Next st' ∧
    current_ref st'
    = (if Ascii.eqb c "-" then current_ref st +:+ Str.strip_hyphens (text l)
       else current_ref st +:+ " " +:+ Str.strip_hyphens (text l)) ∧
    references st' = references st ∧
    old_text st' = text l ∧
    Str.last (current_ref st) ≠ Some "-"%char ∧
    Str.first (Str.strip_hyphens (text l)) ≠ Some "-"%char ∧
    Str.last (Str.strip_hyphens (text l)) ≠ Some "-"%char.
Proof.
  intros Hreach Hcls Hnew Hcur Hlast.
  rewrite (step_classifies m st l Hcls). unfold accumulate.
  cbn [tolerance push_page]. rewrite Hnew.
  unfold join_continuation. cbn [current_ref old_text set_tolerance push_page].
  apply is_empty_false in Hcur. rewrite Hcur, Hlast.
  unfold Chr.hyphen.
  destruct (Ascii.eqb c "-"); (eexists; split; [reflexivity|]);
    cbn; (split; [done|]); (split; [done|]); (split; [done|]);
    (split; [by apply (parse_loop_no_trailing_hyphen m prefix)|]);
    (split; [apply strip_hyphens_first|apply strip_hyphens_last]).
Qed.

Lemma continuation_join_rule_witness :
  let heading := Line 0 0 88 72 "References" in
  let a := Line 0 0 100 72 "trans-" in
  let b := Line 0 0 112 82 "former" in
  let m := min_x_map [heading; a; b] in
  let st := {| references := []; tolerance := 3; current_ref := "trans";
               in_references := true; prev_was_A := false; ref_count := 0;
               page_list := [0%nat]; old_text := "trans-" |} in
  parse_loop m init_state [heading; a] = Next st ∧
  (∃ st', step m st b = Next st' ∧ current_ref st' = "transformer") ∧
  extract_from_lines [heading; a; b] = Ok ["transformer"].
Proof.
  intros heading a b m st.
  assert (Hst : parse_loop m init_state [heading; a] = Next st)
    by (vm_compute; reflexivity).
  assert (Hcls : reaches_classification st b).
  { split; [reflexivity|]. split; [vm_compute; discriminate|].
    split; vm_compute; reflexivity. }
  assert (Hnew : is_new_ref m (tolerance st) b = false)
    by (vm_compute; reflexivity).
  assert (Hcur : current_ref st ≠ "") by discriminate.
  assert (Hlast : Str.last (old_text st) = Some "-"%char) by reflexivity.
  split; [exact Hst|]. split; [|vm_compute; reflexivity].
  destruct (continuation_join_rule m [heading; a] st b "-"%char
              Hst Hcls Hnew Hcur Hlast) as (st' & Hstep & Hjoin & _).
  exists st'. split; [exact Hstep|]. rewrite Hjoin. reflexivity.
Defined.

(** ** Appendix detection *)

Lemma set_prev_was_A_id st : prev_was_A st = true → set_prev_was_A true st = st.
Proof. destruct st. cbn. by intros ->. Qed.

(** Once the flag is set nothing is accumulated any more: a further "A" line
    leaves the state as it is, any other line leaves the loop. *)
Lemma parse_loop_after_A m ls : ∀ st,
  in_references st = true → prev_was_A st = true →
  parse_loop m st ls = Next st ∨ parse_loop m st ls = Break st.
Proof.
  induction ls as [|l ls IH]; intros st Hin Hprev; [by left|].
  cbn [parse_loop]. unfold step. rewrite Hin, Hprev. cbn [negb].
  destruct (String.eqb _ _); [|by right].
  rewrite (set_prev_was_A_id st Hprev). by apply IH.
Qed.

Lemma parse_loop_cons m st l ls :
  parse_loop m st (l :: ls)
  = match step m st l with
    | Next st' => parse_loop m st' ls
    | Break st' => Break st'
    | Throw e => Throw e
    end.
Proof. done. Qed.

Lemma step_A_line m st a :
  in_references st = true → Str.strip (text a) = "A" →
  step m st a = Next (set_prev_was_A true st).
Proof. intros Hin HA. unfold step. by rewrite Hin, HA. Qed.

Lemma finish_spec st :
  finish st
  = references st
    ++ (if Str.is_empty (current_ref st) then []
        else [Str.strip (current_ref st)]).
Proof.
  unfold finish. destruct (Str.is_empty _); [by rewrite app_nil_r|done].
Qed.

(** C4. In the references section, a line whose trimmed text is "A" followed
    by another line ends the parsing: the loop is left at the following line
    without processing it (a following line that is "A" again is passed over
    with the state unchanged and the loop is left at the line after), and
    whatever the following lines are the function returns the references
    finalized before the "A" line, followed by the accumulator of that
    moment if it is not empty.  Neither line adds text to a reference. *)
Theorem appendix_label_ends_parsing m prefix st a next rest :
  parse_loop m init_state prefix = Next st →
  in_references st = true →
  Str.strip (text a) = "A" →
  (Str.strip (text next) ≠ "A" →
     parse_loop m init_state (prefix ++ a :: next :: rest)
     = Break (set_prev_was_A true st)) ∧
  output (parse_loop m init_state (prefix ++ a :: next :: rest))
  = Ok (references st
        ++ (if Str.is_empty (current_ref st) then []
            else [Str.strip (current_ref st)])).
Proof.
  intros Hst Hin HA.
  rewrite parse_loop_app, Hst, parse_loop_cons, (step_A_line m st a Hin HA).
  split.
  - intros Hnext%String.eqb_neq. rewrite parse_loop_cons. unfold step.
    cbn [in_references prev_was_A set_prev_was_A]. by rewrite Hin, Hnext.
  - rewrite <- finish_spec.
    destruct (parse_loop_after_A m (next :: rest) (set_prev_was_A true st))
      as [-> | ->]; [done..| |]; done.
Qed.

Lemma appendix_label_ends_parsing_witness :
  let heading := Line 0 0 88 72 "References" in
  let r1 := Line 0 0 100 72 "Smith, J. 2020. A Study of Things." in
  let r2 := Line 0 0 112 72 "Doe, A. 2019. Another paper." in
  let a := Line 0 1 100 310 "A" in
  let next := Line 0 1 112 310 "Experimental Setup" in
  let rest := [Line 0 1 124 310 "We trained on 8 GPUs."] in
  let all_lines := [heading; r1; r2] ++ a :: next :: rest in
  extract_from_lines all_lines
  = Ok ["Smith, J. 2020. A Study of Things."; "Doe, A. 2019. Another paper."].
Proof.
  intros heading r1 r2 a next rest all_lines.
  set (st := {| references := ["Smith, J. 2020. A Study of Things."];
                tolerance := 3;
                current_ref := "Doe, A. 2019. Another paper.";
                in_references := true; prev_was_A := false; ref_count := 1;
                page_list := [0%nat; 0%nat];
                old_text := "Doe, A. 2019. Another paper." |}).
  assert (Hst : parse_loop (min_x_map all_lines) init_state [heading; r1; r2]
                = Next st) by (vm_compute; reflexivity).
  exact (proj2 (appendix_label_ends_parsing (min_x_map all_lines)
                  [heading; r1; r2] st a next rest Hst eq_refl eq_refl)).
Defined.

(** ** The last-character access *)

Lemma last_line_recorded_mono seen l st :
  last_line_recorded seen st → last_line_recorded (seen ++ [l]) st.
Proof.
  intros H Hcur. destruct (H Hcur) as (l0 & Hl0 & Ht).
  exists l0. split; [|done]. apply elem_of_app. by left.
Qed.

Lemma step_records_last_line m seen st l st' :
  last_line_recorded seen st → step m st l = Next st' →
  last_line_recorded (seen ++ [l]) st'.
Proof.
  intros Hinv. pose proof (last_line_recorded_mono seen l st Hinv) as Hmono.
  assert (Hnew : ∀ st0, last_line_recorded (seen ++ [l])
                          (set_old_text (text l) st0)).
  { intros st0 _. exists l. split; [|done].
    apply elem_of_app. right. apply list_elem_of_here. }
  unfold step.
  destruct (negb (in_references st)).
  { destruct (Re.found _); by intros [= <-]. }
  destruct (String.eqb _ _); [by intros [= <-]|].
  destruct (prev_was_A st); [done|].
  destruct (Re.found _).
  { destruct (page_in _ _); [by intros [= <-]|done]. }
  unfold accumulate. destruct (is_new_ref _ _ _).
  - destruct (Str.isnumeric _); intros [= <-]; [done|apply Hnew].
  - destruct (join_continuation _ l); [|done]. intros [= <-]. apply Hnew.
Qed.

Lemma step_does_not_throw m seen st l e :
  Forall (fun l => text l ≠ "") seen →
  last_line_recorded seen st → step m st l ≠ Throw e.
Proof.
  intros Hne Hinv. unfold step.
  destruct (negb (in_references st)); [by destruct (Re.found _)|].
  destruct (String.eqb _ _); [done|].
  destruct (prev_was_A st); [done|].
  destruct (Re.found _); [by destruct (page_in _ _)|].
  unfold accumulate. destruct (is_new_ref _ _ _).
  { by destruct (Str.isnumeric _). }
  unfold join_continuation. cbn [current_ref old_text set_tolerance push_page].
  destruct (Str.is_empty (current_ref st)) eqn:He; [done|].
  apply is_empty_false in He. destruct (Hinv He) as (l0 & Hl0 & Ht).
  rewrite Forall_forall in Hne.
  destruct (last_is_Some (old_text st)) as [c ->].
  { rewrite Ht. by apply Hne. }
  by destruct (Ascii.eqb c Chr.hyphen).
Qed.

Lemma parse_loop_records_last_line m ls : ∀ seen st st',
  last_line_recorded seen st → parse_loop m st ls = Next st' →
  last_line_recorded (seen ++ ls) st'.
Proof.
  induction ls as [|l ls IH]; intros seen st st' Hinv; cbn [parse_loop].
  - intros [= <-]. by rewrite app_nil_r.
  - destruct (step m st l) as [st1| |] eqn:Hs; [|done..]. intros Hloop.
    rewrite (cons_middle l seen ls), app_assoc.
    eapply IH; [|done]. by eapply step_records_last_line.
Qed.

Lemma parse_loop_does_not_throw m ls : ∀ seen st e,
  Forall (fun l => text l ≠ "") (seen ++ ls) →
  last_line_recorded seen st → parse_loop m st ls ≠ Throw e.
Proof.
  induction ls as [|l ls IH]; intros seen st e Hne Hinv; [done|].
  cbn [parse_loop]. destruct (step m st l) as [st1| |e'] eqn:Hs; [|done|].
  - rewrite (cons_middle l seen ls), app_assoc in Hne.
    eapply IH; [done|]. by eapply step_records_last_line.
  - exfalso. eapply step_does_not_throw; [|done|done].
    by apply Forall_app in Hne as [? _].
Qed.

Lemma init_state_recorded : last_line_recorded [] init_state.
Proof. by intros ?. Qed.

(** The lines collected have a text that is not empty, and the sort only
    reorders them. *)
Lemma line_entry_nonempty p col tl l :
  line_entry p col tl = Some l → text l ≠ "".
Proof.
  unfold line_entry. destruct (Str.is_empty _) eqn:He; [done|].
  intros [= <-]. by apply is_empty_false.
Qed.

Lemma lines_of_page_nonempty p pg :
  Forall (fun l => text l ≠ "") (lines_of_page p pg).
Proof.
  unfold lines_of_page. apply Forall_forall. intros l Hl.
  apply list_elem_of_bind in Hl as (b & Hl & _).
  unfold lines_of_block in Hl. destruct (block_type b =? 0).
  - apply list_elem_of_omap in Hl as (tl & _ & Htl).
    by eapply line_entry_nonempty.
  - by apply not_elem_of_nil in Hl.
Qed.

Lemma collect_lines_nonempty doc ref_start_page :
  Forall (fun l => text l ≠ "") (collect_lines doc ref_start_page).
Proof.
  unfold collect_lines. apply Forall_forall. intros l Hl.
  apply list_elem_of_join in Hl as (ls & Hl & Hls).
  apply elem_of_lookup_imap in Hls as (k & pg & -> & _).
  pose proof (lines_of_page_nonempty (ref_start_page + k) pg) as Hne.
  rewrite Forall_forall in Hne. by apply Hne.
Qed.

Lemma all_lines_nonempty doc ref_start_page :
  Forall (fun l => text l ≠ "")
         (sort_lines (collect_lines doc ref_start_page)).
Proof.
  rewrite sort_lines_Permutation. apply collect_lines_nonempty.
Qed.

(** The loop is safe on any list of lines whose texts are not empty. *)
Lemma parse_loop_is_safe m all_lines :
  Forall (fun l => text l ≠ "") all_lines →
  (∀ prefix rest st,
     all_lines = prefix ++ rest →
     parse_loop m init_state prefix = Next st →
     current_ref st ≠ "" →
     ∃ l0 c, l0 ∈ prefix ∧ old_text st = text l0 ∧
             Str.last (old_text st) = Some c) ∧
  (∀ e, parse_loop m init_state all_lines ≠ Throw e).
Proof.
  intros Hne. split.
  - intros prefix rest st -> Hst Hcur.
    destruct (parse_loop_records_last_line m prefix [] init_state st
                init_state_recorded Hst Hcur) as (l0 & Hl0 & Ht).
    cbn [app] in Hl0. apply Forall_app in Hne as [Hne _].
    rewrite Forall_forall in Hne.
    destruct (last_is_Some (old_text st)) as [c Hc].
    { rewrite Ht. by apply Hne. }
    eauto.
  - intros e. apply (parse_loop_does_not_throw m all_lines []); [done|].
    apply init_state_recorded.
Qed.

(** C10. On the lines that the function collects and sorts: at any point of
    the parse loop where the accumulator is not empty, a line has been
    accumulated before, [old_text] is the text of such a line and has a last
    character; so the access to that character never raises, and the
    function returns a list of references. *)
Theorem last_character_access_is_safe doc ref_start_page :
  let all_lines := sort_lines (collect_lines doc ref_start_page) in
  (∀ m prefix rest st,
     all_lines = prefix ++ rest →
     parse_loop m init_state prefix = Next st →
     current_ref st ≠ "" →
     ∃ l0 c, l0 ∈ prefix ∧ old_text st = text l0 ∧
             Str.last (old_text st) = Some c) ∧
  (∀ m e, parse_loop m init_state all_lines ≠ Throw e) ∧
  (∃ refs, extract_acl_references doc ref_start_page = Ok refs).
Proof.
  intros all_lines.
  pose proof (all_lines_nonempty doc ref_start_page) as Hne.
  fold all_lines in Hne.
  split; [|split].
  - intros m. by apply parse_loop_is_safe.
  - intros m. by apply parse_loop_is_safe.
  - unfold extract_acl_references, extract_from_lines. fold all_lines.
    destruct all_lines as [|l ls] eqn:Hall; [by eexists|].
    pose proof (proj2 (parse_loop_is_safe (min_x_map (l :: ls)) (l :: ls) Hne))
      as Hno.
    destruct (parse_loop _ init_state (l :: ls)) as [st|st|e]; cbn;
      [by eexists..|].
    by destruct (Hno e).
Qed.

(** ** The matcher *)

Section RegexFacts.

Implicit Types (s t : string) (k : Re.cls) (r : Re.regex) (i : Re.cursor).
Implicit Types (kont : Re.cont) (caps res : Re.captures).

Lemma run_Cls_Some k i caps kont res :
  Re.run (Re.Cls k) i caps kont = Some res →
  ∃ c s', i.2 = String c s' ∧ Re.cls_ok k c = true ∧
          kont (S i.1, s') caps = Some res.
Proof.
  cbn. destruct (i.2) as [|c s']; [done|].
  destruct (Re.cls_ok k c) eqn:Hc; [|done]. eauto.
Qed.

Lemma run_Cls_ok k (pos : nat) c s caps kont :
  Re.cls_ok k c = true →
  Re.run (Re.Cls k) (pos, String c s) caps kont = kont (S pos, s) caps.
Proof. cbn. by intros ->. Qed.

Lemma run_Alt_Some r1 r2 i caps kont res :
  Re.run (Re.Alt r1 r2) i caps kont = Some res →
  Re.run r1 i caps kont = Some res ∨ Re.run r2 i caps kont = Some res.
Proof.
  cbn [Re.run]. destruct (Re.run r1 i caps kont); [by left|by right].
Qed.

Lemma star_greedy_sound k kont caps : ∀ s pos res,
  Re.star_greedy k kont caps pos s = Some res →
  ∃ pre s', s = pre +:+ s' ∧ Str.all (Re.cls_ok k) pre = true ∧
            kont ((pos + String.length pre)%nat, s') caps = Some res.
Proof.
  induction s as [|c s IH]; intros pos res; cbn [Re.star_greedy].
  - intros H. exists "", "". by rewrite Nat.add_0_r.
  - destruct (Re.cls_ok k c) eqn:Hc.
    + destruct (Re.star_greedy k kont caps (S pos) s) as [r'|] eqn:Hs.
      * intros [= <-]. destruct (IH _ _ Hs) as (pre & s' & -> & Hall & Hk).
        exists (String c pre), s'. cbn. rewrite Hc, Hall.
        by rewrite <- Nat.add_succ_comm.
      * intros H. exists "", (String c s). by rewrite Nat.add_0_r.
    + intros H. exists "", (String c s). by rewrite Nat.add_0_r.
Qed.

Lemma star_lazy_sound k kont caps : ∀ s pos res,
  Re.star_lazy k kont caps pos s = Some res →
  ∃ pre s', s = pre +:+ s' ∧ Str.all (Re.cls_ok k) pre = true ∧
            kont ((pos + String.length pre)%nat, s') caps = Some res.
Proof.
  induction s as [|c s IH]; intros pos res; cbn [Re.star_lazy].
  - destruct (kont (pos, "") caps) eqn:Hk; [|done].
    intros [= <-]. exists "", "". by rewrite Nat.add_0_r.
  - destruct (kont (pos, String c s) caps) eqn:Hk.
    + intros [= <-]. exists "", (String c s). by rewrite Nat.add_0_r.
    + destruct (Re.cls_ok k c) eqn:Hc; [|done]. intros Hs.
      destruct (IH _ _ Hs) as (pre & s' & -> & Hall & Hk').
      exists (String c pre), s'. cbn. rewrite Hc, Hall.
      by rewrite <- Nat.add_succ_comm.
Qed.

Lemma star_lazy_complete k kont caps : ∀ pre s pos,
  Str.all (Re.cls_ok k) pre = true →
  is_Some (kont ((pos + String.length pre)%nat, s) caps) →
  is_Some (Re.star_lazy k kont caps pos (pre +:+ s)).
Proof.
  induction pre as [|c pre IH]; intros s pos Hall Hk.
  - cbn in Hk. rewrite Nat.add_0_r in Hk. destruct Hk as [res Hk].
    change ("" +:+ s) with s. destruct s; cbn [Re.star_lazy]; by rewrite Hk.
  - cbn in Hall. apply andb_true_iff in Hall as [Hc Hall].
    change (String c pre +:+ s) with (String c (pre +:+ s)).
    cbn [Re.star_lazy].
    destruct (kont (pos, String c (pre +:+ s)) caps); [by eexists|]. rewrite Hc.
    apply IH; [done|]. cbn in Hk. by rewrite Nat.add_succ_comm.
Qed.

Lemma star_greedy_is_Some k kont caps :
  (∀ i, is_Some (kont i caps)) →
  ∀ s pos, is_Some (Re.star_greedy k kont caps pos s).
Proof.
  intros Hk. induction s as [|c s IH]; intros pos; cbn [Re.star_greedy]; [done|].
  destruct (Re.cls_ok k c); [|done].
  destruct (Re.star_greedy k kont caps (S pos) s); [by eexists|done].
Qed.

Lemma search_from_Some r : ∀ s pos res,
  Re.search_from r pos s = Some res →
  ∃ pre s', s = pre +:+ s' ∧
            Re.run r ((pos + String.length pre)%nat, s') [] Re.accept = Some res.
Proof.
  induction s as [|c s IH]; intros pos res; cbn [Re.search_from].
  - destruct (Re.run r (pos, "") [] Re.accept) eqn:Hr; [|done].
    intros [= <-]. exists "", "". by rewrite Nat.add_0_r.
  - destruct (Re.run r (pos, String c s) [] Re.accept) eqn:Hr.
    + intros [= <-]. exists "", (String c s). by rewrite Nat.add_0_r.
    + intros Hs. destruct (IH _ _ Hs) as (pre & s' & -> & Hrun).
      exists (String c pre), s'. cbn. by rewrite <- Nat.add_succ_comm.
Qed.

Lemma search_from_here r s pos :
  is_Some (Re.run r (pos, s) [] Re.accept) → is_Some (Re.search_from r pos s).
Proof. intros [res Hr]. destruct s; cbn [Re.search_from]; by rewrite Hr. Qed.

Lemma all_impl (p q : ascii -> bool) s :
  (∀ c, p c = true → q c = true) → Str.all p s = true → Str.all q s = true.
Proof.
  intros Hpq. induction s as [|c s IH]; [done|]. cbn.
  intros [Hc Hs]%andb_true_iff. by rewrite (Hpq c Hc), (IH Hs).
Qed.

Lemma all_app (p : ascii -> bool) s t :
  Str.all p (s +:+ t) = Str.all p s && Str.all p t.
Proof.
  induction s as [|c s IH]; [done|].
  change (String c s +:+ t) with (String c (s +:+ t)). cbn.
  by rewrite IH, andb_assoc.
Qed.

Lemma lstrip_app_all (p : ascii -> bool) pre s :
  Str.all p pre = true → Str.lstrip p (pre +:+ s) = Str.lstrip p s.
Proof.
  induction pre as [|c pre IH]; [done|]. cbn.
  intros [Hc Hs]%andb_true_iff.
  change (String c pre +:+ s) with (String c (pre +:+ s)).
  cbn. by rewrite Hc, (IH Hs).
Qed.

Lemma rstrip_empty (p : ascii -> bool) s :
  Str.rstrip p s = "" → Str.all p s = true.
Proof.
  induction s as [|c s IH]; [done|]. cbn.
  destruct (Str.is_empty (Str.rstrip p s)) eqn:He; [|done].
  destruct (p c); [|done]. intros _. by apply IH, is_empty_true.
Qed.

Lemma capital_not_space c :
  Chr.in_range "A" "Z" c = true → Chr.isspace c = false.
Proof.
  unfold Chr.in_range, Chr.isspace, Chr.code.
  change (N_of_ascii "A") with 65%N. change (N_of_ascii "Z") with 90%N.
  intros [H1 H2]%andb_true_iff. apply N.leb_le in H1, H2.
  repeat (apply orb_false_iff; split); try apply andb_false_iff;
    rewrite ?N.leb_gt, ?N.eqb_neq; lia.
Qed.

(** A text that the appendix pattern matches: newlines, then "A", at least
    one whitespace character and a capital letter. *)
Lemma appendix_re_shape t :
  is_Some (Re.re_match appendix_re t) →
  ∃ nls ws cap rest,
    t = nls +:+ String "A" (ws +:+ String cap rest) ∧
    Str.all Chr.isspace nls = true ∧
    Chr.in_range "A" "Z" cap = true.
Proof.
  intros [res Hm]. unfold Re.re_match, appendix_re, Re.Plus in Hm.
  cbn [Re.run fst snd Nat.eqb] in Hm.
  apply star_greedy_sound in Hm as (nls & s1 & -> & Hnls & Hk).
  read_cls Hk a s2 Ha. apply Ascii.eqb_eq in Ha as ->.
  read_cls Hk w s3 Hw.
  apply star_greedy_sound in Hk as (ws & s4 & -> & Hws & Hk).
  read_cls Hk cap rest Hcap.
  exists nls, (String w ws), cap, rest. split; [done|]. split; [|done].
  revert Hnls. apply all_impl. intros c Hc. cbn in Hc.
  by apply Ascii.eqb_eq in Hc as ->.
Qed.

Lemma appendix_line_is_not_A t :
  is_Some (Re.re_match appendix_re t) → Str.strip t ≠ "A".
Proof.
  intros (nls & ws & cap & rest & -> & Hnls & Hcap)%appendix_re_shape.
  unfold Str.strip, Str.strip_with. rewrite (lstrip_app_all _ _ _ Hnls).
  cbn [Str.lstrip]. change (Chr.isspace "A") with false.
  cbn [Str.rstrip]. change (Chr.isspace "A") with false.
  rewrite andb_false_r.
  destruct (Str.rstrip Chr.isspace (ws +:+ String cap rest)) eqn:Hr;
    [|done].
  apply rstrip_empty in Hr. rewrite all_app in Hr.
  apply andb_true_iff in Hr as [_ Hr]. cbn in Hr.
  apply andb_true_iff in Hr as [Hr _].
  by rewrite (capital_not_space cap Hcap) in Hr.
Qed.

Lemma pattern_1_sound s :
  is_Some (Re.re_search pattern_1 s) → year_shape s.
Proof.
  intros [res Hm]. unfold Re.re_search in Hm.
  apply search_from_Some in Hm as (pre & s0 & -> & Hrun).
  unfold pattern_1, Re.Plus in Hrun. cbn [Re.run Re.Word fst snd] in Hrun.
  destruct (0 + String.length pre =? 0)%nat eqn:Hpos; [|done].
  apply Nat.eqb_eq in Hpos. destruct pre; [|done]. clear Hpos.
  change ("" +:+ s0) with s0.
  read_cls Hrun c0 s1 Hc0.
  apply star_lazy_sound in Hrun as (auth & s2 & -> & Hauth & Hk).
  read_cls Hk dot1 s3 Hdot1. apply Ascii.eqb_eq in Hdot1 as ->.
  read_cls Hk w1 s4 Hw1.
  assert (Hyear : ∃ y1 y2 y3 y4 w2 rest,
    s4 = String y1 (String y2 (String y3 (String y4
           (String "." (String w2 rest))))) ∧
    ((y1 = "1"%char ∧ y2 = "9"%char) ∨ (y1 = "2"%char ∧ y2 = "0"%char)) ∧
    Chr.isdecimal y3 = true ∧ Chr.isdecimal y4 = true ∧
    Chr.isspace w2 = true).
  { cbn [Re.run Re.Word fst snd] in Hk.
    match type of Hk with
    | match ?x with Some _ => _ | None => _ end = Some _ =>
        destruct x as [res'|] eqn:Hx; [clear Hk; rename Hx into Hk|clear Hx]
    end.
    - read_cls Hk y1 s5 Hy1. apply Ascii.eqb_eq in Hy1 as ->.
      read_cls Hk y2 s6 Hy2. apply Ascii.eqb_eq in Hy2 as ->.
      read_cls Hk y3 s7 Hy3. read_cls Hk y4 s8 Hy4.
      read_cls Hk dot2 s9 Hdot2. apply Ascii.eqb_eq in Hdot2 as ->.
      read_cls Hk w2 rest Hw2.
      exists "1"%char, "9"%char, y3, y4, w2, rest. auto 10.
    - read_cls Hk y1 s5 Hy1. apply Ascii.eqb_eq in Hy1 as ->.
      read_cls Hk y2 s6 Hy2. apply Ascii.eqb_eq in Hy2 as ->.
      read_cls Hk y3 s7 Hy3. read_cls Hk y4 s8 Hy4.
      read_cls Hk dot2 s9 Hdot2. apply Ascii.eqb_eq in Hdot2 as ->.
      read_cls Hk w2 rest Hw2.
      exists "2"%char, "0"%char, y3, y4, w2, rest. auto 10. }
  destruct Hyear as (y1 & y2 & y3 & y4 & w2 & rest & -> & Hy & Hy3 & Hy4 & Hw2).
  exists (String c0 auth), w1, y1, y2, y3, y4, w2, rest.
  split; [done|]. split; [done|]. split; [|done].
  cbn. by rewrite Hc0, Hauth.
Qed.

Lemma pattern_1_complete s :
  year_shape s → is_Some (Re.re_search pattern_1 s).
Proof.
  intros (auth & w1 & y1 & y2 & y3 & y4 & w2 & rest & -> & Hne & Hauth
          & Hw1 & Hy & Hy3 & Hy4 & Hw2).
  destruct auth as [|c0 auth]; [done|]. cbn [Str.all] in Hauth.
  apply andb_true_iff in Hauth as [Hc0 Hauth].
  apply search_from_here. unfold pattern_1, Re.Plus.
  change (String c0 auth +:+ ?t) with (String c0 (auth +:+ t)).
  cbn [Re.run Re.Word fst snd Nat.eqb]. rewrite Hc0.
  apply star_lazy_complete; [done|].
  cbn [Re.run Re.Word fst snd Re.cls_ok]. rewrite Hw1, Ascii.eqb_refl.
  destruct Hy as [[-> ->]|[-> ->]];
    repeat (rewrite ?Ascii.eqb_refl, ?Hy3, ?Hy4, ?Hw2; cbn [Re.cls_ok]).
  - match goal with
    | |- context [Re.star_greedy ?k ?kont ?caps ?pos ?s] =>
        destruct (star_greedy_is_Some k kont caps
                    (fun i => ex_intro _ _ eq_refl) s pos) as [? ->]
    end.
    by eexists.
  - change (("2" =? "1")%char) with false. cbv iota.
    match goal with
    | |- context [Re.star_greedy ?k ?kont ?caps ?pos ?s] =>
        destruct (star_greedy_is_Some k kont caps
                    (fun i => ex_intro _ _ eq_refl) s pos) as [? ->]
    end.
    by eexists.
Qed.

(** X21. [pattern_1] finds a match exactly in the texts of the shape
    "<authors>. <year>. <rest>": no text of that shape makes the first
    pattern of the field extractor fail. *)
Lemma pattern_1_matches_iff s :
  is_Some (Re.re_search pattern_1 s) ↔ year_shape s.
Proof. split; [apply pattern_1_sound|apply pattern_1_complete]. Qed.

End RegexFacts.

(** ** The appendix heading on a page already seen *)

(** C6 as stated fails: on a page that is already in [page_list], a
    continuation line that the appendix pattern matches is not joined to the
    accumulator; the step leaves the state as it was and the text of the
    line is lost from the reference. *)
Lemma appendix_pattern_line_is_not_accumulated :
  let heading := Line 0 0 88 72 "References" in
  let a := Line 0 0 100 72 "Smith, J. 2020." in
  let b := Line 0 0 112 82 "A Study of Things. In Proceedings of X." in
  let m := min_x_map [heading; a; b] in
  let st := {| references := []; tolerance := 3;
               current_ref := "Smith, J. 2020.";
               in_references := true; prev_was_A := false; ref_count := 0;
               page_list := [0%nat]; old_text := "Smith, J. 2020." |} in
  parse_loop m init_state [heading; a] = Next st ∧
  Re.found (Re.re_match appendix_re (text b)) = true ∧
  page_in (page_num b) (page_list st) = true ∧
  step m st b = Next st ∧
  step m st b ≠ accumulate m st b ∧
  extract_from_lines [heading; a; b] = Ok ["Smith, J. 2020."].
Proof.
  intros heading a b m st.
  split; [vm_compute; reflexivity|]. split; [vm_compute; reflexivity|].
  split; [vm_compute; reflexivity|]. split; [vm_compute; reflexivity|].
  split; [vm_compute; discriminate|]. vm_compute. reflexivity.
Qed.

(** C6, amended. In the references section with no "A" line pending, a line
    that the appendix pattern matches and whose page is already in
    [page_list] does not end the parsing and is skipped: the step goes on
    with the state unchanged, the pending flag still clear, and the line
    adds no text to any reference. *)
Theorem appendix_pattern_on_seen_page_is_skipped m st l :
  in_references st = true →
  prev_was_A st = false →
  Re.found (Re.re_match appendix_re (text l)) = true →
  page_in (page_num l) (page_list st) = true →
  step m st l = Next st ∧ prev_was_A st = false ∧
  ∀ ls, parse_loop m st (l :: ls) = parse_loop m st ls.
Proof.
  intros Hin Hprev Happ Hpage.
  assert (HA : Str.strip (text l) ≠ "A").
  { apply appendix_line_is_not_A.
    destruct (Re.re_match appendix_re (text l)); [by eexists|done]. }
  apply String.eqb_neq in HA.
  assert (Hstep : step m st l = Next st).
  { unfold step. by rewrite Hin, HA, Hprev, Happ, Hpage. }
  split; [done|]. split; [done|]. intros ls. by rewrite parse_loop_cons, Hstep.
Qed.

Lemma appendix_pattern_on_seen_page_is_skipped_witness :
  let m : gmap (nat * Z) Q := {[ (0%nat, 0) := 72%Q ]} in
  let st := {| references := []; tolerance := 3;
               current_ref := "Smith, J. 2020.";
               in_references := true; prev_was_A := false; ref_count := 0;
               page_list := [0%nat]; old_text := "Smith, J. 2020." |} in
  let l := Line 0 0 112 82 "A Study of Things. In Proceedings of X." in
  step m st l = Next st.
Proof.
  intros m st l.
  apply (appendix_pattern_on_seen_page_is_skipped m st l);
    vm_compute; reflexivity.
Defined.

(** ** Numeric lines *)

(** C7 as stated fails: a numeric line taken as a new-reference start is
    dropped, but its page has been appended to [page_list] before.  Here the
    page number "12" opens page 1; because of it the appendix heading of
    that page no longer ends the parsing, and a line of the appendix comes
    out as a reference.  Without the "12" line the parsing ends at the
    heading. *)
Lemma numeric_skip_records_the_page :
  let heading := Line 0 0 88 72 "References" in
  let r := Line 0 0 100 72 "Smith, J. 2020. A Study of Things." in
  let n := Line 1 0 60 72 "12" in
  let h := Line 1 0 72 72 "A Experimental Setup" in
  let t := Line 1 0 84 72 "We trained on 8 GPUs." in
  let m := min_x_map [heading; r; n; h; t] in
  let st := {| references := []; tolerance := 3;
               current_ref := "Smith, J. 2020. A Study of Things.";
               in_references := true; prev_was_A := false; ref_count := 0;
               page_list := [0%nat];
               old_text := "Smith, J. 2020. A Study of Things." |} in
  parse_loop m init_state [heading; r] = Next st ∧
  is_new_ref m (tolerance st) n = true ∧
  Str.isnumeric (text n) = true ∧
  (∃ st', step m st n = Next st' ∧ page_list st' = [0%nat; 1%nat] ∧
          page_list st' ≠ page_list st) ∧
  extract_from_lines [heading; r; n; h; t]
  = Ok ["Smith, J. 2020. A Study of Things."; "We trained on 8 GPUs."] ∧
  extract_from_lines [heading; r; h; t]
  = Ok ["Smith, J. 2020. A Study of Things."].
Proof.
  intros heading r n h t m st.
  split; [vm_compute; reflexivity|]. split; [vm_compute; reflexivity|].
  split; [vm_compute; reflexivity|]. split.
  - eexists. split; [vm_compute; reflexivity|].
    split; [reflexivity|]. cbn. discriminate.
  - split; vm_compute; reflexivity.
Qed.

(** C7, amended. A numeric line taken as a new-reference start is dropped:
    the references, the accumulator, the previous-line text, the pending
    flag and the counter stay as they are, while the page of the line is
    appended to [page_list] and the variable [tolerance] is set for the
    column of the line (3 in column 0, 15 in column 1, left as it is in any
    other column).  A numeric line taken as a continuation is joined to the
    accumulator with its whole text: directly when the accumulator is empty
    or the previous line ended with a hyphen, after one space otherwise;
    its page and its tolerance are recorded in the same way. *)
Theorem numeric_line_handling m st l :
  reaches_classification st l →
  Str.isnumeric (text l) = true →
  (is_new_ref m (tolerance st) l = true →
     ∃ st', step m st l = Next st' ∧
       references st' = references st ∧
       current_ref st' = current_ref st ∧
       old_text st' = old_text st ∧
       prev_was_A st' = prev_was_A st ∧
       in_references st' = in_references st ∧
       ref_count st' = ref_count st ∧
       page_list st' = page_list st ++ [page_num l] ∧
       tolerance st' = column_tolerance (tolerance st) (column l)) ∧
  (is_new_ref m (tolerance st) l = false →
     (current_ref st ≠ "" → old_text st ≠ "") →
     ∃ st' sep, step m st l = Next st' ∧
       current_ref st' = current_ref st +:+ sep +:+ text l ∧
       sep = (if Str.is_empty (current_ref st) then ""
              else if bool_decide (Str.last (old_text st) = Some "-"%char)
                   then "" else " ") ∧
       references st' = references st ∧
       old_text st' = text l ∧
       page_list st' = page_list st ++ [page_num l] ∧
       tolerance st' = column_tolerance (tolerance st) (column l)).
Proof.
  intros Hcls Hnum. rewrite (step_classifies m st l Hcls). unfold accumulate.
  cbn [tolerance push_page]. split; intros Hnew; rewrite Hnew.
  - rewrite Hnum. eexists. split; [reflexivity|]. by cbn.
  - intros Hold. unfold join_continuation.
    cbn [current_ref old_text set_tolerance push_page].
    rewrite (strip_hyphens_numeric _ Hnum).
    destruct (Str.is_empty (current_ref st)) eqn:He.
    + apply is_empty_true in He. eexists _, "".
      split; [reflexivity|]. cbn. by rewrite He.
    + apply is_empty_false in He.
      destruct (last_is_Some _ (Hold He)) as [c Hc]. rewrite Hc.
      unfold Chr.hyphen. destruct (Ascii.eqb_spec c "-") as [->|Hne].
      * exists (set_old_text (text l) (set_prev_was_A false
                 (set_current_ref (current_ref st +:+ text l)
                    (set_tolerance (column_tolerance (tolerance st) (column l))
                       (push_page (page_num l) st))))), "".
        split; [reflexivity|]. cbn. by rewrite bool_decide_eq_true_2.
      * eexists _, " ". split; [reflexivity|]. cbn.
        rewrite bool_decide_eq_false_2; [done|]. by intros [= ->].
Qed.

Lemma numeric_line_handling_witness :
  let m : gmap (nat * Z) Q := {[ (0%nat, 0) := 72%Q ]} in
  let st := {| references := []; tolerance := 3;
               current_ref := "Smith, J. 2020. A Study of Things,";
               in_references := true; prev_was_A := false; ref_count := 0;
               page_list := [0%nat];
               old_text := "Smith, J. 2020. A Study of Things," |} in
  (∃ st', step m st (Line 1 1 60 310 "12") = Next st' ∧
          current_ref st' = current_ref st ∧
          page_list st' = [0%nat; 1%nat] ∧
          tolerance st' = 15%Q) ∧
  (∃ st', step m st (Line 0 0 112 82 "2020") = Next st' ∧
          current_ref st' = "Smith, J. 2020. A Study of Things, 2020").
Proof.
  intros m st.
  assert (Hc1 : reaches_classification st (Line 1 1 60 310 "12")).
  { split; [reflexivity|]. split; [vm_compute; discriminate|].
    split; vm_compute; reflexivity. }
  assert (Hc2 : reaches_classification st (Line 0 0 112 82 "2020")).
  { split; [reflexivity|]. split; [vm_compute; discriminate|].
    split; vm_compute; reflexivity. }
  split.
  - destruct (proj1 (numeric_line_handling m st _ Hc1 eq_refl))
      as (st' & Hs & _ & Hcur & _ & _ & _ & _ & Hp & Ht);
      [vm_compute; reflexivity|].
    exists st'. split; [exact Hs|]. split; [exact Hcur|].
    split; [rewrite Hp; reflexivity|rewrite Ht; reflexivity].
  - destruct (proj2 (numeric_line_handling m st _ Hc2 eq_refl))
      as (st' & sep & Hs & Hcur & Hsep & _);
      [vm_compute; reflexivity|discriminate|].
    exists st'. split; [exact Hs|]. rewrite Hcur, Hsep. vm_compute. reflexivity.
Defined.

(** ** The field extractor *)

Lemma extract_fields_raises ref e :
  extract_fields ref = Raised e → e = AttributeError.
Proof.
  unfold extract_fields, venue_and_doi.
  destruct (Re.re_search pattern_1 ref) as [obj|]; [|by intros [= <-]].
  destruct (Re.re_search pattern_2 _) as [obj_2|]; [|by intros [= <-]].
  destruct (Str.is_empty _); [done|].
  destruct (Re.re_search pattern_3 _) as [obj_3|]; [done|by intros [= <-]].
Qed.

Lemma extract_fields_no_year ref :
  ¬ year_shape ref → extract_fields ref = Raised AttributeError.
Proof.
  intros Hno. unfold extract_fields.
  destruct (Re.re_search pattern_1 ref) as [obj|] eqn:Hm; [|done].
  destruct Hno. apply pattern_1_sound. by eexists.
Qed.

Lemma dict_loop_no_year r refs : ∀ i count ref_dict,
  (count < 20)%nat →
  r ∈ take (20 - count) refs →
  ¬ year_shape r →
  dict_loop refs i count ref_dict = Raised AttributeError.
Proof.
  induction refs as [|ref refs IH]; intros i count ref_dict Hcount Hin Hno.
  { rewrite take_nil in Hin. by apply not_elem_of_nil in Hin. }
  cbn [dict_loop].
  destruct (extract_fields ref) as [row|e] eqn:He.
  - destruct (20 - count)%nat as [|k] eqn:Hk; [lia|].
    cbn [take] in Hin. apply elem_of_cons in Hin as [->|Hin].
    { by rewrite (extract_fields_no_year ref Hno) in He. }
    destruct (S count =? 20)%nat eqn:Hc.
    + apply Nat.eqb_eq in Hc. assert (k = 0)%nat as -> by lia.
      by apply not_elem_of_nil in Hin.
    + apply Nat.eqb_neq in Hc. apply IH; [lia| |done].
      by replace (20 - S count)%nat with k by lia.
  - by rewrite (extract_fields_raises ref e He).
Qed.

(** C8. When one of the references that the loop gets to, that is one of
    the first 20, does not have the shape "<authors>. <year>. <rest>" with a
    year from 1900 to 2099, [references_dict] raises and returns no table:
    the record is not skipped. *)
Theorem missing_year_aborts_the_batch (refs : list string) (r : string) :
  r ∈ take 20 refs →
  ¬ year_shape r →
  references_dict refs = Raised AttributeError.
Proof.
  intros Hin Hno. unfold references_dict.
  by apply (dict_loop_no_year r); [lia| |].
Qed.

Lemma missing_year_aborts_the_batch_witness :
  let refs := ["Smith, J. 2020. A Study of Things. In Proceedings of X.";
               "Doe, A. Another paper, to appear."] in
  references_dict refs = Raised AttributeError.
Proof.
  intros refs.
  apply (missing_year_aborts_the_batch refs
           "Doe, A. Another paper, to appear.").
  - cbn [take refs]. apply list_elem_of_further, list_elem_of_here.
  - intros [res Hres]%pattern_1_complete. vm_compute in Hres. discriminate.
Defined.

Lemma dict_loop_well_formed refs : ∀ i count ref_dict,
  (count < 20)%nat →
  Forall well_formed refs →
  ∃ rows,
    dict_loop refs i count ref_dict = Ok (ref_dict ++ rows) ∧
    Forall2 (fun ref row => extract_fields ref = Ok row.2)
            (take (20 - count) refs) rows ∧
    rows.*1 = seq i (length rows).
Proof.
  induction refs as [|ref refs IH]; intros i count ref_dict Hcount Hwf.
  { exists []. rewrite app_nil_r, take_nil. by repeat split. }
  apply Forall_cons in Hwf as [[row Hrow] Hwf].
  cbn [dict_loop]. rewrite Hrow.
  destruct (20 - count)%nat as [|k] eqn:Hk; [lia|]. cbn [take].
  destruct (S count =? 20)%nat eqn:Hc.
  - apply Nat.eqb_eq in Hc. assert (k = 0)%nat as -> by lia.
    exists [(i, row)]. rewrite take_0. split; [done|].
    split; [|done]. by repeat constructor.
  - apply Nat.eqb_neq in Hc.
    destruct (IH (S i) (S count) (ref_dict ++ [(i, row)])) as
      (rows & Hloop & Hrows & Hidx); [lia|done|].
    replace (20 - S count)%nat with k in Hrows by lia.
    exists ((i, row) :: rows). rewrite Hloop, <- app_assoc.
    split; [done|]. split; [by constructor|].
    cbn. by rewrite Hidx.
Qed.

(** C9. For n well-formed references the table has n rows when n <= 20 and
    20 rows when n > 20: the rows are the structured records of the first
    20 references in their order, numbered from 0, and the references after
    the 20th leave no trace. *)
Theorem table_holds_first_twenty (refs : list string) :
  Forall well_formed refs →
  ∃ rows : table,
    references_dict refs = Ok rows ∧
    ((length refs <= 20)%nat → length rows = length refs) ∧
    ((length refs > 20)%nat → length rows = 20%nat) ∧
    Forall2 (fun ref row => extract_fields ref = Ok row.2)
            (take 20 refs) rows ∧
    rows.*1 = seq 0 (length rows).
Proof.
  intros Hwf.
  destruct (dict_loop_well_formed refs 0 0 []) as (rows & Hloop & Hrows & Hidx);
    [lia|done|].
  change (20 - 0)%nat with 20%nat in Hrows.
  exists rows. split; [done|].
  pose proof (Forall2_length _ _ _ Hrows) as Hlen.
  rewrite length_take in Hlen.
  split; [intros ?; lia|]. split; [intros ?; lia|]. by split.
Qed.

Lemma well_formed_check (refs : list string) :
  forallb (fun ref => is_ok (extract_fields ref)) refs = true →
  Forall well_formed refs.
Proof.
  induction refs as [|ref refs IH]; cbn [forallb]; [by constructor|].
  intros [Hok Hrest]%andb_true_iff. constructor; [|by apply IH].
  unfold well_formed. destruct (extract_fields ref); [by eexists|done].
Qed.

Lemma table_holds_first_twenty_witness :
  Forall well_formed twenty_five_references ∧
  length twenty_five_references = 25%nat ∧
  ∃ rows : table,
    references_dict twenty_five_references = Ok rows ∧
    length rows = 20%nat ∧
    rows.*1 = seq 0 20.
Proof.
  assert (Hwf : Forall well_formed twenty_five_references)
    by (apply well_formed_check; vm_compute; reflexivity).
  split; [exact Hwf|]. split; [reflexivity|].
  destruct (table_holds_first_twenty twenty_five_references Hwf)
    as (rows & Hrows & _ & Hlen & _ & Hidx).
  exists rows. split; [exact Hrows|].
  assert (Hl : length rows = 20%nat) by (apply Hlen; vm_compute; lia).
  split; [exact Hl|]. rewrite Hidx, Hl. reflexivity.
Defined.

Lemma last_character_access_is_safe_witness :
  extract_acl_references sample_doc 0
  = Ok ["Smith, J. 2020. A Study of transformer Things. In Proceedings of X."]
  ∧ ∃ refs, extract_acl_references sample_doc 0 = Ok refs.
Proof.
  split; [vm_compute; reflexivity|].
  exact (proj2 (proj2 (last_character_access_is_safe sample_doc 0))).
Defined.

(** What keeps the access safe is that no collected line has an empty text:
    with such a line, which the collection of [all_lines] never lets in, the
    next continuation line would index an empty [old_text]. *)
Lemma empty_text_would_raise :
  let all_lines :=
    [Line 0 0 88 72 "References";
     Line 0 0 100 72 "Smith, J. 2020.";
     Line 0 0 112 82 "";
     Line 0 0 124 82 "The Study of Things."] in
  parse_loop (min_x_map all_lines) init_state all_lines = Throw IndexError.
Proof. vm_compute. reflexivity. Qed.

(** * Further properties *)

(** ** The loop as a whole *)

Lemma parse_loop_keeps (P : state → Prop) m :
  (∀ st l st', P st → flow_state (step m st l) = Some st' → P st') →
  ∀ ls st st', P st → flow_state (parse_loop m st ls) = Some st' → P st'.
Proof.
  intros Hstep. induction ls as [|l ls IH]; intros st st' HP; cbn.
  - by intros [= <-].
  - destruct (step m st l) as [st1|st1|e] eqn:Hs; cbn.
    + apply IH. apply (Hstep st l); [done|]. by rewrite Hs.
    + intros [= <-]. apply (Hstep st l); [done|]. by rewrite Hs.
    + done.
Qed.

(** Every way through the loop body, for a state in the references
    section: the cases of [step] in the order of the source. *)
Lemma step_cases (P : flow → Prop) m st l :
  (in_references st = false → is_heading l = true →
     P (Next (set_in_references true st))) →
  (in_references st = false → is_heading l = false → P (Next st)) →
  (in_references st = true → Str.strip (text l) = "A" →
     P (Next (set_prev_was_A true st))) →
  (in_references st = true → Str.strip (text l) ≠ "A" →
     prev_was_A st = true → P (Break st)) →
  (in_references st = true → Str.strip (text l) ≠ "A" →
     prev_was_A st = false →
     Re.found (Re.re_match appendix_re (text l)) = true →
     page_in (page_num l) (page_list st) = true → P (Next st)) →
  (in_references st = true → Str.strip (text l) ≠ "A" →
     prev_was_A st = false →
     Re.found (Re.re_match appendix_re (text l)) = true →
     page_in (page_num l) (page_list st) = false → P (Break st)) →
  (reaches_classification st l → P (accumulate m st l)) →
  P (step m st l).
Proof.
  intros H1 H2 H3 H4 H5 H6 H7. unfold step, is_heading in *.
  destruct (in_references st) eqn:Hin; cbn [negb].
  - destruct (String.eqb_spec (Str.strip (text l)) "A") as [HA|HA]; [auto|].
    destruct (prev_was_A st) eqn:Hp; [auto|].
    destruct (Re.found (Re.re_match appendix_re (text l))) eqn:Hm.
    + destruct (page_in _ _) eqn:Hpg; auto.
    + apply H7. repeat split; [done..|].
      by destruct (Re.re_match appendix_re (text l)).
  - destruct (Re.found _) eqn:Hh; auto.
Qed.

Lemma accumulate_cases (P : flow → Prop) m st l :
  let st2 := set_tolerance (column_tolerance (tolerance st) (column l))
               (push_page (page_num l) st) in
  (is_new_ref m (tolerance st) l = true → Str.isnumeric (text l) = true →
     P (Next st2)) →
  (is_new_ref m (tolerance st) l = true → Str.isnumeric (text l) = false →
     P (Next (set_old_text (text l)
                (set_prev_was_A false (start_reference st2 l))))) →
  (is_new_ref m (tolerance st) l = false →
     ∀ e, join_continuation st2 l = Raised e → P (Throw e)) →
  (is_new_ref m (tolerance st) l = false →
     ∀ st3, join_continuation st2 l = Ok st3 →
     P (Next (set_old_text (text l) (set_prev_was_A false st3)))) →
  P (accumulate m st l).
Proof.
  intros st2 H1 H2 H3 H4. unfold accumulate. cbn [tolerance push_page].
  fold st2. destruct (is_new_ref m (tolerance st) l).
  - destruct (Str.isnumeric (text l)); auto.
  - destruct (join_continuation st2 l) eqn:Hj; eauto.
Qed.

(** ** Before the heading *)

Lemma parse_loop_seeking m pre : ∀ st,
  in_references st = false →
  Forall (fun l => is_heading l = false) pre →
  parse_loop m st pre = Next st.
Proof.
  induction pre as [|l pre IH]; intros st Hin Hpre; [done|].
  apply Forall_cons in Hpre as [Hl Hpre]. cbn [parse_loop].
  unfold step. unfold is_heading in Hl. rewrite Hin, Hl. cbn [negb].
  by apply IH.
Qed.

(** ** Two maps with the same baselines *)

(** The loop reads the map only through the baseline of the line at hand,
    and only up to the equality of numbers. *)
Lemma is_new_ref_ext m m' tol l :
  (baseline m l == baseline m' l)%Q →
  is_new_ref m tol l = is_new_ref m' tol l.
Proof.
  intros Hb. unfold is_new_ref.
  assert (Hd : (Qabs (x_pos l - baseline m l)
                == Qabs (x_pos l - baseline m' l))%Q) by (by rewrite Hb).
  destruct (Qle_bool (Qabs (x_pos l - baseline m' l)) _) eqn:H'.
  - apply Qle_bool_iff. rewrite Hd. by apply Qle_bool_iff.
  - destruct (Qle_bool (Qabs (x_pos l - baseline m l)) _) eqn:H; [|done].
    apply Qle_bool_iff in H. rewrite Hd in H. apply Qle_bool_iff in H.
    congruence.
Qed.

Lemma step_ext m m' st l :
  (baseline m l == baseline m' l)%Q → step m st l = step m' st l.
Proof.
  intros Hb. unfold step, accumulate.
  by rewrite (is_new_ref_ext m m' _ l Hb).
Qed.

Lemma parse_loop_ext m m' ls : ∀ st,
  Forall (fun l => (baseline m l == baseline m' l)%Q) ls →
  parse_loop m st ls = parse_loop m' st ls.
Proof.
  induction ls as [|l ls IH]; intros st Hls; [done|].
  apply Forall_cons in Hls as [Hl Hls]. cbn [parse_loop].
  rewrite (step_ext m m' st l Hl). destruct (step m' st l); auto.
Qed.

(** Two lists of lines give a line the same baseline when, among the lines
    of its (page, column), neither list has a line to the left of all the
    lines of the other. *)
Lemma baseline_same_minimum (A B : list line) (l : line) :
  (∀ a, a ∈ A → line_key a = line_key l →
     ∃ b, b ∈ B ∧ line_key b = line_key l ∧ (x_pos b <= x_pos a)%Q) →
  (∀ b, b ∈ B → line_key b = line_key l →
     ∃ a, a ∈ A ∧ line_key a = line_key l ∧ (x_pos a <= x_pos b)%Q) →
  (baseline (min_x_map A) l == baseline (min_x_map B) l)%Q.
Proof.
  intros HAB HBA. unfold baseline. rewrite !min_x_map_lookup.
  destruct (py_min (xs_at (line_key l) A)) as [x|] eqn:HA;
    destruct (py_min (xs_at (line_key l) B)) as [y|] eqn:HB; cbn [default].
  - apply py_min_spec in HA as [HxA HleA], HB as [HyB HleB].
    apply elem_of_xs_at in HxA as (a & Ha & Hka & Hxa).
    apply elem_of_xs_at in HyB as (b & Hb & Hkb & Hyb).
    destruct (HAB a Ha Hka) as (b' & Hb' & Hkb' & Hle1).
    destruct (HBA b Hb Hkb) as (a' & Ha' & Hka' & Hle2).
    apply Qle_antisym.
    + rewrite <- Hyb. eapply Qle_trans; [|exact Hle2].
      apply HleA, elem_of_xs_at. eauto.
    + rewrite <- Hxa. eapply Qle_trans; [|exact Hle1].
      apply HleB, elem_of_xs_at. eauto.
  - apply py_min_spec in HA as [HxA _].
    apply elem_of_xs_at in HxA as (a & Ha & Hka & _).
    destruct (HAB a Ha Hka) as (b & Hb & Hkb & _).
    destruct (py_min_is_Some (xs_at (line_key l) B)) as [? ?]; [|congruence].
    intros Hnil. assert (Hx : x_pos b ∈ xs_at (line_key l) B)
      by (apply elem_of_xs_at; eauto).
    rewrite Hnil in Hx. by apply not_elem_of_nil in Hx.
  - apply py_min_spec in HB as [HyB _].
    apply elem_of_xs_at in HyB as (b & Hb & Hkb & _).
    destruct (HBA b Hb Hkb) as (a & Ha & Hka & _).
    destruct (py_min_is_Some (xs_at (line_key l) A)) as [? ?]; [|congruence].
    intros Hnil. assert (Hx : x_pos a ∈ xs_at (line_key l) A)
      by (apply elem_of_xs_at; eauto).
    rewrite Hnil in Hx. by apply not_elem_of_nil in Hx.
  - apply Qeq_refl.
Qed.

Lemma line_key_eq (l l' : line) :
  line_key l = line_key l' ↔ page_num l = page_num l' ∧ column l = column l'.
Proof.
  unfold line_key. split; [by intros [= -> ->]|by intros [-> ->]].
Qed.

(** X1. The lines before the first line in which the heading pattern is
    found never enter a reference, but they do count for the baselines.
    Without a heading line the function returns no reference.  With one,
    the loop passes the lines before it and the heading line itself without
    changing its variables, and what is returned is the reading of the
    lines after the heading against the baselines of all the lines, those
    before the heading included.  When no line before the heading lies to
    the left of all the lines from the heading on in a (page, column) that
    it shares with a line after the heading, the result is the one for the
    lines from the heading on alone. *)
Theorem lines_before_heading_count_only_for_baselines
    (pre : list line) (h : line) (rest : list line) :
  Forall (fun l => is_heading l = false) pre →
  is_heading h = true →
  extract_from_lines pre = Ok [] ∧
  extract_from_lines (pre ++ h :: rest)
  = output (parse_loop (min_x_map (pre ++ h :: rest))
              (set_in_references true init_state) rest) ∧
  ((∀ p l, p ∈ pre → l ∈ rest →
      page_num p = page_num l → column p = column l →
      ∃ l', l' ∈ h :: rest ∧ page_num l' = page_num p ∧
            column l' = column p ∧ (x_pos l' <= x_pos p)%Q) →
   extract_from_lines (pre ++ h :: rest) = extract_from_lines (h :: rest)).
Proof.
  intros Hpre Hh.
  assert (Hrun : ∀ m pre', Forall (fun l => is_heading l = false) pre' →
            parse_loop m init_state (pre' ++ h :: rest)
            = parse_loop m (set_in_references true init_state) rest).
  { intros m pre' Hpre'.
    rewrite parse_loop_app, (parse_loop_seeking m pre' init_state); [|done..].
    rewrite parse_loop_cons. unfold step. unfold is_heading in Hh.
    cbn [in_references init_state negb]. by rewrite Hh. }
  assert (Hall : extract_from_lines (pre ++ h :: rest)
                 = output (parse_loop (min_x_map (pre ++ h :: rest))
                             (set_in_references true init_state) rest)).
  { unfold extract_from_lines. rewrite (Hrun _ pre Hpre).
    by destruct pre. }
  split; [|split; [exact Hall|]].
  - unfold extract_from_lines. destruct pre as [|l pre]; [done|].
    by rewrite (parse_loop_seeking _ (l :: pre) init_state).
  - intros Hleft. rewrite Hall.
    change (extract_from_lines (h :: rest))
      with (output (parse_loop (min_x_map (h :: rest)) init_state
                      ([] ++ h :: rest))).
    rewrite (Hrun _ [] (Forall_nil_2 _)). f_equal.
    apply parse_loop_ext, Forall_forall. intros l Hl.
    apply baseline_same_minimum.
    + intros a Ha Hka. apply elem_of_app in Ha as [Ha|Ha].
      * apply line_key_eq in Hka as [Hpg Hcol].
        destruct (Hleft a l Ha Hl Hpg Hcol) as (l' & Hl' & Hpg' & Hcol' & Hle).
        exists l'. split; [done|]. split; [|done].
        apply line_key_eq. split; congruence.
      * exists a. split; [done|]. split; [done|apply Qle_refl].
    + intros b Hb Hkb. exists b. split; [|split; [done|apply Qle_refl]].
      apply elem_of_app. by right.
Qed.

Lemma lines_before_heading_count_only_for_baselines_witness :
  let title := Line 0 0 60 72 "A Study of Things" in
  let body := Line 0 0 72 80 "We study things." in
  let heading := Line 0 0 84 72 "References" in
  let r := Line 0 0 96 72 "Smith, J. 2020. Things." in
  let c := Line 0 0 108 82 "Press." in
  extract_from_lines [title; body] = Ok [] ∧
  extract_from_lines [title; body; heading; r; c]
  = extract_from_lines [heading; r; c] ∧
  extract_from_lines [heading; r; c] = Ok ["Smith, J. 2020. Things. Press."].
Proof.
  intros title body heading r c.
  assert (Hpre : Forall (fun l => is_heading l = false) [title; body])
    by (repeat constructor).
  destruct (lines_before_heading_count_only_for_baselines
              [title; body] heading [r; c] Hpre eq_refl) as (H0 & _ & H2).
  split; [exact H0|]. split; [|vm_compute; reflexivity].
  apply H2. intros p l Hp _ _ _. exists heading.
  split; [apply list_elem_of_here|].
  apply elem_of_cons in Hp as [-> | Hp];
    [|apply list_elem_of_singleton in Hp as ->];
    (split; [reflexivity|]); (split; [reflexivity|]);
    vm_compute; discriminate.
Defined.

(** The condition on the lines before the heading is needed: a line before
    the heading that lies to the left of the references of its column moves
    the baseline, and the two references are read as one. *)
Lemma line_before_heading_can_move_the_baseline :
  let title := Line 0 0 60 60 "A Study of Things" in
  let heading := Line 0 0 84 72 "References" in
  let r1 := Line 0 0 96 72 "Smith, J. 2020. Things." in
  let r2 := Line 0 0 108 72 "Doe, A. 2019. Another paper." in
  extract_from_lines [heading; r1; r2]
  = Ok ["Smith, J. 2020. Things."; "Doe, A. 2019. Another paper."] ∧
  extract_from_lines [title; heading; r1; r2]
  = Ok ["Smith, J. 2020. Things. Doe, A. 2019. Another paper."].
Proof. split; vm_compute; reflexivity. Qed.

(** ** What the loop keeps *)

Lemma step_references_prefix m st l st' :
  flow_state (step m st l) = Some st' →
  references st `prefix_of` references st'.
Proof.
  apply (step_cases (fun f => flow_state f = Some st' → _));
    try (intros; simplify_eq/=; done).
  intros _.
  apply (accumulate_cases (fun f => flow_state f = Some st' → _));
    intros; simplify_eq/=; try done.
  - unfold start_reference. destruct (Str.is_empty _); cbn; [done|].
    by apply prefix_app_r.
  - unfold join_continuation in *.
    repeat case_match; simplify_eq/=; done.
Qed.

(** X2. A reference once finalized stays: the references finalized after
    any prefix of the lines are the first references of the list returned,
    in the same order. *)
Theorem finalized_references_stay m pre rest st refs :
  parse_loop m init_state pre = Next st →
  output (parse_loop m init_state (pre ++ rest)) = Ok refs →
  references st `prefix_of` refs.
Proof.
  intros Hpre Hout. rewrite parse_loop_app, Hpre in Hout.
  destruct (parse_loop m st rest) as [st'|st'|e] eqn:Hrest; [| |done];
    cbn in Hout; injection Hout as <-.
  all: assert (Hp : references st `prefix_of` references st')
    by (apply (parse_loop_keeps
                 (fun s => references st `prefix_of` references s) m
                 (fun s l s' Hs Hstep =>
                    transitivity Hs (step_references_prefix m s l s' Hstep))
                 rest st st'); [done|by rewrite Hrest]).
  all: rewrite finish_spec; by apply prefix_app_r.
Qed.

Lemma finalized_references_stay_witness :
  let heading := Line 0 0 60 72 "References" in
  let r1 := Line 0 0 72 72 "Smith, J. 2020. Things." in
  let r2 := Line 0 0 84 72 "Doe, A. 2019. Another" in
  let r3 := Line 0 0 96 82 "paper." in
  let m := min_x_map [heading; r1; r2; r3] in
  ∃ st, parse_loop m init_state [heading; r1; r2] = Next st ∧
        references st = ["Smith, J. 2020. Things."] ∧
        references st `prefix_of`
          ["Smith, J. 2020. Things."; "Doe, A. 2019. Another paper."].
Proof.
  intros heading r1 r2 r3 m.
  destruct (parse_loop m init_state [heading; r1; r2]) as [st| |] eqn:Hst;
    [|vm_compute in Hst; discriminate..].
  exists st. split; [reflexivity|]. split.
  - vm_compute in Hst. injection Hst as <-. reflexivity.
  - apply (finalized_references_stay m [heading; r1; r2] [r3] st _ Hst).
    vm_compute. reflexivity.
Defined.

Lemma strip_trimmed s : trimmed (Str.strip s).
Proof.
  split; intros c Hc.
  - by eapply first_strip_with.
  - by eapply last_strip_with.
Qed.

Lemma step_references_trimmed m st l st' :
  Forall trimmed (references st) →
  flow_state (step m st l) = Some st' →
  Forall trimmed (references st').
Proof.
  intros Hinv.
  apply (step_cases (fun f => flow_state f = Some st' → _));
    try (intros; simplify_eq/=; done).
  intros _.
  apply (accumulate_cases (fun f => flow_state f = Some st' → _));
    intros; simplify_eq/=; try done.
  - unfold start_reference. destruct (Str.is_empty _); cbn; [done|].
    apply Forall_app. split; [done|]. apply Forall_singleton, strip_trimmed.
  - unfold join_continuation in *.
    repeat case_match; simplify_eq/=; done.
Qed.

(** X3. Every reference returned has been stripped: it neither starts nor
    ends with a whitespace character. *)
Theorem returned_references_are_trimmed (all_lines : list line) refs :
  extract_from_lines all_lines = Ok refs → Forall trimmed refs.
Proof.
  unfold extract_from_lines. destruct all_lines as [|l ls].
  { intros [= <-]. constructor. }
  set (m := min_x_map (l :: ls)).
  destruct (parse_loop m init_state (l :: ls)) as [st|st|e] eqn:Hloop;
    [| |done]; cbn; intros [= <-].
  all: assert (Hinv : Forall trimmed (references st))
    by (apply (parse_loop_keeps (fun s => Forall trimmed (references s)) m
                 (step_references_trimmed m) (l :: ls) init_state st);
        [constructor|by rewrite Hloop]).
  all: rewrite finish_spec; apply Forall_app; split; [done|].
  all: destruct (Str.is_empty _); [constructor|];
    apply Forall_singleton, strip_trimmed.
Qed.

Lemma returned_references_are_trimmed_witness :
  let all_lines :=
    [Line 0 0 60 72 "References";
     Line 0 0 72 72 "Smith, J. 2020. Things -";
     Line 0 0 84 72 "- Doe, A. 2019. Another paper."] in
  extract_from_lines all_lines
  = Ok ["Smith, J. 2020. Things"; "Doe, A. 2019. Another paper."] ∧
  Forall trimmed ["Smith, J. 2020. Things"; "Doe, A. 2019. Another paper."].
Proof.
  intros all_lines.
  assert (H : extract_from_lines all_lines
              = Ok ["Smith, J. 2020. Things"; "Doe, A. 2019. Another paper."])
    by (vm_compute; reflexivity).
  split; [exact H|].
  exact (returned_references_are_trimmed all_lines _ H).
Defined.

Lemma step_ref_count m st l st' :
  ref_count st = length (references st) →
  flow_state (step m st l) = Some st' →
  ref_count st' = length (references st').
Proof.
  intros Hinv.
  apply (step_cases (fun f => flow_state f = Some st' → _));
    try (intros; simplify_eq/=; done).
  intros _.
  apply (accumulate_cases (fun f => flow_state f = Some st' → _));
    intros; simplify_eq/=; try done.
  - unfold start_reference. destruct (Str.is_empty _); cbn; [done|].
    rewrite length_app. cbn. lia.
  - unfold join_continuation in *.
    repeat case_match; simplify_eq/=; done.
Qed.

(** X4. The appendix heading on a page that has given no line yet ends the
    parsing: in the references section, with no "A" line pending, a line
    that the appendix pattern matches and whose page is not in [page_list]
    leaves the loop, and the function returns what was accumulated before,
    whatever follows. *)
Theorem appendix_heading_on_new_page_ends_parsing m st l rest :
  in_references st = true →
  prev_was_A st = false →
  Re.found (Re.re_match appendix_re (text l)) = true →
  page_in (page_num l) (page_list st) = false →
  parse_loop m st (l :: rest) = Break st ∧
  output (parse_loop m st (l :: rest)) = Ok (finish st).
Proof.
  intros Hin Hprev Happ Hpage.
  assert (HA : Str.strip (text l) ≠ "A").
  { apply appendix_line_is_not_A.
    destruct (Re.re_match appendix_re (text l)); [by eexists|done]. }
  apply String.eqb_neq in HA.
  assert (Hstep : step m st l = Break st).
  { unfold step. by rewrite Hin, HA, Hprev, Happ, Hpage. }
  rewrite parse_loop_cons, Hstep. by split.
Qed.

Lemma appendix_heading_on_new_page_ends_parsing_witness :
  let heading := Line 0 0 60 72 "References" in
  let r := Line 0 0 72 72 "Smith, J. 2020. Things." in
  let h := Line 1 0 60 72 "A Experimental Setup" in
  let t := Line 1 0 72 72 "We trained on 8 GPUs." in
  extract_from_lines [heading; r; h; t] = Ok ["Smith, J. 2020. Things."] ∧
  ∃ st, parse_loop (min_x_map [heading; r; h; t]) init_state [heading; r]
        = Next st ∧
        parse_loop (min_x_map [heading; r; h; t]) st [h; t] = Break st.
Proof.
  intros heading r h t. split; [vm_compute; reflexivity|].
  set (m := min_x_map [heading; r; h; t]).
  set (st := {| references := []; tolerance := 3;
                current_ref := "Smith, J. 2020. Things.";
                in_references := true; prev_was_A := false; ref_count := 0;
                page_list := [0%nat];
                old_text := "Smith, J. 2020. Things." |}).
  exists st. split; [vm_compute; reflexivity|].
  apply (appendix_heading_on_new_page_ends_parsing m st h [t]);
    vm_compute; reflexivity.
Defined.

(** X5. The counter [ref_count] counts the references: when the loop is
    left it is the number of references finalized so far, and the total
    after the last accumulator is the length of the list returned. *)
Theorem ref_count_is_number_of_references m (ls : list line) st :
  flow_state (parse_loop m init_state ls) = Some st →
  ref_count st = length (references st) ∧
  final_ref_count st = length (finish st).
Proof.
  intros Hloop.
  assert (Hinv : ref_count st = length (references st)).
  { by apply (parse_loop_keeps
                (fun s => ref_count s = length (references s)) m
                (step_ref_count m) ls init_state st). }
  split; [done|]. unfold final_ref_count. rewrite finish_spec, length_app.
  destruct (Str.is_empty _); cbn; lia.
Qed.

Lemma ref_count_is_number_of_references_witness :
  let ls := [Line 0 0 60 72 "References";
             Line 0 0 72 72 "Smith, J. 2020. Things.";
             Line 0 0 84 72 "Doe, A. 2019. Another paper."] in
  ∃ st, flow_state (parse_loop (min_x_map ls) init_state ls) = Some st ∧
        final_ref_count st = 2%nat ∧ length (finish st) = 2%nat.
Proof.
  intros ls.
  destruct (flow_state (parse_loop (min_x_map ls) init_state ls))
    as [st|] eqn:Hst; [|vm_compute in Hst; discriminate].
  exists st. split; [reflexivity|].
  destruct (ref_count_is_number_of_references (min_x_map ls) ls st Hst)
    as [_ Hn].
  assert (Hlen : length (finish st) = 2%nat).
  { vm_compute in Hst. injection Hst as <-. reflexivity. }
  split; [by rewrite Hn|exact Hlen].
Defined.

(** ** Baselines and classification on the lines of the function *)

(** X6. For a line of [all_lines] the map always has a baseline, so the
    default of [min_x_map.get] is never used; the baseline is not to the
    right of the line, so the difference is never negative and the line is
    a new-reference start exactly when it lies at most the tolerance to the
    right of the baseline. *)
Theorem own_baseline_is_to_the_left (all_lines : list line) (l : line) tol :
  l ∈ all_lines →
  ∃ b : Q,
    min_x_map all_lines !! line_key l = Some b ∧
    (0 <= x_pos l - b)%Q ∧
    (is_new_ref (min_x_map all_lines) tol l = true
     ↔ (x_pos l - b <= column_tolerance tol (column l))%Q).
Proof.
  intros Hl.
  destruct (py_min_is_Some (xs_at (line_key l) all_lines)) as [b Hb].
  { intros Hnil.
    assert (Hx : x_pos l ∈ xs_at (line_key l) all_lines)
      by (apply elem_of_xs_at; eauto).
    rewrite Hnil in Hx. by apply not_elem_of_nil in Hx. }
  exists b. rewrite min_x_map_lookup. split; [done|].
  assert (Hle : (b <= x_pos l)%Q).
  { apply py_min_spec in Hb as [_ Hle]. apply Hle, elem_of_xs_at. eauto. }
  assert (Hpos : (0 <= x_pos l - b)%Q).
  { apply (Qplus_le_l _ _ b). ring_simplify. exact Hle. }
  split; [done|].
  rewrite is_new_ref_iff. unfold baseline.
  rewrite min_x_map_lookup, Hb. cbn [default].
  by rewrite (Qabs_pos _ Hpos).
Qed.

Lemma own_baseline_is_to_the_left_witness :
  let a := Line 0 0 100 72 "Smith, J. 2020." in
  let b := Line 0 0 112 82 "A Study of Things." in
  ∃ x : Q, min_x_map [a; b] !! line_key b = Some x ∧ (0 <= x_pos b - x)%Q.
Proof.
  intros a b.
  destruct (own_baseline_is_to_the_left [a; b] b 3) as (x & Hx & Hpos & _).
  { apply list_elem_of_further, list_elem_of_here. }
  exists x. split; [exact Hx|exact Hpos].
Defined.

(** X7. In every (page, column) of column 0 or 1 that has lines, some line
    is a new-reference start: the one at the baseline. *)
Theorem baseline_line_starts_a_reference
    (all_lines : list line) (k : nat * Z) (b : Q) tol :
  min_x_map all_lines !! k = Some b →
  k.2 = 0 ∨ k.2 = 1 →
  ∃ l, l ∈ all_lines ∧ line_key l = k ∧ x_pos l = b ∧
       is_new_ref (min_x_map all_lines) tol l = true.
Proof.
  intros Hb Hcol. pose proof Hb as Hb'. rewrite min_x_map_lookup in Hb'.
  apply py_min_spec in Hb' as [Hin _].
  apply elem_of_xs_at in Hin as (l & Hl & Hk & Hx).
  exists l. split; [done|]. split; [done|]. split; [done|].
  apply is_new_ref_iff. unfold baseline. rewrite Hk, Hb. cbn [default].
  rewrite Hx.
  assert (Hz : (Qabs (b - b) == 0)%Q)
    by (rewrite (Qabs_wd (b - b) 0); [reflexivity|ring]).
  rewrite Hz. assert (column l = k.2) as -> by (by rewrite <- Hk).
  destruct Hcol as [-> | ->]; cbn; discriminate.
Qed.

Lemma baseline_line_starts_a_reference_witness :
  let a := Line 0 1 100 310 "Smith, J. 2020." in
  let b := Line 0 1 112 330 "A Study of Things." in
  ∃ l, l ∈ [a; b] ∧ x_pos l = 310%Q ∧
       is_new_ref (min_x_map [a; b]) 3 l = true.
Proof.
  intros a b.
  destruct (baseline_line_starts_a_reference [a; b] (0%nat, 1) 310 3)
    as (l & Hl & _ & Hx & Hnew).
  - vm_compute. reflexivity.
  - right. reflexivity.
  - exists l. split; [exact Hl|]. split; [exact Hx|exact Hnew].
Defined.

(** ** The lines collected and their order *)

Lemma strip_with_fixed (p : ascii → bool) s :
  (∀ c, Str.first s = Some c → p c = false) →
  (∀ c, Str.last s = Some c → p c = false) →
  Str.strip_with p s = s.
Proof.
  intros Hfirst Hlast. unfold Str.strip_with.
  assert (Hl : Str.lstrip p s = s).
  { destruct s as [|a s]; [done|]. cbn. by rewrite (Hfirst a). }
  rewrite Hl. clear Hl Hfirst. induction s as [|a s IH]; [done|].
  cbn [Str.rstrip]. rewrite last_cons in Hlast.
  destruct (Str.is_empty s) eqn:He.
  - apply is_empty_true in He as ->. cbn. by rewrite (Hlast a).
  - rewrite (IH Hlast), He. done.
Qed.

Lemma strip_with_idemp (p : ascii → bool) s :
  Str.strip_with p (Str.strip_with p s) = Str.strip_with p s.
Proof.
  apply strip_with_fixed; intros c Hc.
  - by eapply first_strip_with.
  - by eapply last_strip_with.
Qed.

Lemma line_entry_spec p col tl l :
  line_entry p col tl = Some l →
  page_num l = p ∧ column l = col ∧ text l ≠ "" ∧
  Str.strip (text l) = text l.
Proof.
  unfold line_entry. destruct (Str.is_empty _) eqn:He; [done|].
  intros [= <-]. cbn. repeat split; [by apply is_empty_false|].
  apply strip_with_idemp.
Qed.

Lemma elem_of_collect_lines doc ref_start_page l :
  l ∈ collect_lines doc ref_start_page →
  (column l = 0 ∨ column l = 1) ∧ text l ≠ "" ∧
  Str.strip (text l) = text l ∧
  (ref_start_page <= page_num l < length doc)%nat.
Proof.
  unfold collect_lines. intros Hl.
  apply list_elem_of_join in Hl as (ls & Hl & Hls).
  apply elem_of_lookup_imap in Hls as (k & pg & -> & Hpg).
  unfold lines_of_page in Hl.
  apply list_elem_of_bind in Hl as (b & Hl & _).
  unfold lines_of_block in Hl. destruct (block_type b =? 0).
  - apply list_elem_of_omap in Hl as (tl & _ & Htl).
    apply line_entry_spec in Htl as (Hp & Hc & Hne & Hs).
    split. { rewrite Hc. unfold block_column. destruct (Qltb _ _); auto. }
    split; [done|]. split; [done|]. rewrite Hp.
    apply lookup_lt_Some in Hpg. rewrite length_drop in Hpg. lia.
  - by apply not_elem_of_nil in Hl.
Qed.

(** X8. Every line that the function collects has column 0 or 1, a text
    that is stripped and not empty, and the number of a page of the document
    from [ref_start_page] on.  For such a line the tolerance is 3 or 15 by
    its column alone, whatever the variable held before. *)
Theorem collected_lines_are_well_formed doc ref_start_page (l : line) :
  l ∈ sort_lines (collect_lines doc ref_start_page) →
  (column l = 0 ∨ column l = 1) ∧
  text l ≠ "" ∧
  Str.strip (text l) = text l ∧
  (ref_start_page <= page_num l < length doc)%nat ∧
  ∀ m tol tol', is_new_ref m tol l = is_new_ref m tol' l.
Proof.
  rewrite sort_lines_Permutation. intros Hl.
  apply elem_of_collect_lines in Hl as (Hcol & Hne & Hs & Hp).
  repeat split; try done; try lia.
  intros m tol tol'. unfold is_new_ref, column_tolerance.
  by destruct Hcol as [-> | ->].
Qed.

Lemma collected_lines_are_well_formed_witness :
  let l := Line 0 0 112 82 "former Things." in
  l ∈ sort_lines (collect_lines sample_doc 0) ∧
  Str.strip (text l) = text l ∧ (column l = 0 ∨ column l = 1).
Proof.
  intros l.
  assert (Hl : l ∈ sort_lines (collect_lines sample_doc 0)).
  { vm_compute. do 2 apply list_elem_of_further. apply list_elem_of_here. }
  split; [exact Hl|].
  destruct (collected_lines_are_well_formed sample_doc 0 l Hl)
    as (Hc & _ & Hs & _).
  split; [exact Hs|exact Hc].
Defined.

Lemma Qltb_true (x y : Q) : Qltb x y = true ↔ (x < y)%Q.
Proof.
  unfold Qltb. rewrite negb_true_iff, <- not_true_iff_false, Qle_bool_iff.
  split; [apply Qnot_le_lt|apply Qlt_not_le].
Qed.

Lemma Qltb_false (x y : Q) : Qltb x y = false ↔ (y <= x)%Q.
Proof. unfold Qltb. by rewrite negb_false_iff, Qle_bool_iff. Qed.

Lemma key_lt_spec a b :
  key_lt a b = true ↔
  (page_num a < page_num b)%nat ∨
  (page_num a = page_num b ∧
   (column a < column b ∨ (column a = column b ∧ (y_pos a < y_pos b)%Q))).
Proof.
  unfold key_lt.
  destruct (Nat.eqb_spec (page_num a) (page_num b)) as [Hp|Hp]; cbn [negb].
  - destruct (Z.eqb_spec (column a) (column b)) as [Hc|Hc]; cbn [negb].
    + rewrite Qltb_true. split; [auto|]. intros [?|(_ & [?|[_ ?]])]; [lia..|done].
    + rewrite Z.ltb_lt. split; [auto|]. intros [?|(_ & [?|[? _]])]; [lia|done|done].
  - rewrite Nat.ltb_lt. split; [auto|]. intros [?|[? _]]; done.
Qed.

Lemma key_le_spec a b :
  key_le a b ↔
  (page_num a < page_num b)%nat ∨
  (page_num a = page_num b ∧
   (column a < column b ∨ (column a = column b ∧ (y_pos a <= y_pos b)%Q))).
Proof.
  unfold key_le. rewrite <- not_true_iff_false, key_lt_spec. split.
  - intros Hn.
    destruct (lt_eq_lt_dec (page_num a) (page_num b)) as [[?|Hp]|?];
      [by left| |exfalso; apply Hn; by left].
    right. split; [done|].
    destruct (Z.lt_trichotomy (column a) (column b)) as [?|[Hc|?]];
      [by left| |exfalso; apply Hn; right; split; [done|by left]].
    right. split; [done|]. apply Qnot_lt_le. intros Hy.
    apply Hn. right. split; [done|]. right. by split.
  - intros [?|(Hp & [?|(Hc & Hy)])] [?|(Hp' & [?|(Hc' & Hy')])]; try lia.
    by apply Qle_not_lt in Hy.
Qed.

Lemma key_le_trans a b c : key_le a b → key_le b c → key_le a c.
Proof.
  rewrite !key_le_spec.
  intros [?|(Hp & [?|(Hc & Hy)])] [?|(Hp' & [?|(Hc' & Hy')])];
    try (left; lia); try (right; split; [lia|left; lia]).
  right. split; [lia|]. right. split; [lia|]. by eapply Qle_trans.
Qed.

Lemma key_le_refl a : key_le a a.
Proof.
  apply key_le_spec. right. split; [done|]. right. split; [done|].
  apply Qle_refl.
Qed.

Lemma key_lt_le a b : key_lt a b = true → key_le a b.
Proof.
  rewrite key_lt_spec, key_le_spec.
  intros [?|(Hp & [?|(Hc & Hy)])]; [by left|right; split; [done|by left]|].
  right. split; [done|]. right. split; [done|]. by apply Qlt_le_weak.
Qed.

Lemma insert_line_sorted l sorted :
  StronglySorted key_le sorted → StronglySorted key_le (insert_line l sorted).
Proof.
  induction 1 as [|h t Ht IH Hh]; cbn [insert_line].
  - by repeat constructor.
  - destruct (key_lt l h) eqn:Hlt.
    + constructor; [by constructor|]. constructor; [by apply key_lt_le|].
      eapply Forall_impl; [done|]. intros x Hx.
      eapply key_le_trans; [|done]. by apply key_lt_le.
    + constructor; [done|]. rewrite insert_line_Permutation.
      by constructor.
Qed.

Lemma foldl_insert_line_sorted ls : ∀ acc,
  StronglySorted key_le acc →
  StronglySorted key_le (foldl (fun acc l => insert_line l acc) acc ls).
Proof.
  induction ls as [|l ls IH]; intros acc Hacc; [done|].
  cbn [foldl]. by apply IH, insert_line_sorted.
Qed.

Lemma filter_none {A} (P : A → Prop) `{!∀ x, Decision (P x)} (l : list A) :
  Forall (fun x => ¬ P x) l → filter P l = [].
Proof.
  induction 1 as [|x l Hx _ IH]; [done|]. by rewrite filter_cons_False.
Qed.

(** Among the lines with the place of [a] in the order, a line is inserted
    last. *)
Lemma insert_line_stable a l sorted :
  StronglySorted key_le sorted →
  filter (key_eqv a) (insert_line l sorted)
  = filter (key_eqv a) sorted ++ filter (key_eqv a) [l].
Proof.
  induction 1 as [|h t Ht IH Hh]; cbn [insert_line]; [by rewrite app_nil_l|].
  destruct (key_lt l h) eqn:Hlt.
  - (* [l] goes first: nothing from [h] on has the place of [l] *)
    destruct (decide (key_eqv a l)) as [Hal|Hal].
    + assert (Hnone : filter (key_eqv a) (h :: t) = []).
      { apply filter_none, Forall_forall. intros x Hx [Hax Hxa].
        assert (Hhx : key_le h x).
        { apply elem_of_cons in Hx as [->|Hx].
          - apply key_le_refl.
          - rewrite Forall_forall in Hh. by apply Hh. }
        assert (Hhl : key_le h l).
        { destruct Hal. eapply key_le_trans; [done|].
          by eapply key_le_trans. }
        unfold key_le in Hhl. congruence. }
      rewrite filter_cons_True, Hnone by done.
      rewrite (filter_cons_True _ l []) by done. done.
    + rewrite filter_cons_False by done.
      rewrite (filter_cons_False _ l []) by done. by rewrite app_nil_r.
  - rewrite !(filter_cons _ h), IH.
    by destruct (decide (key_eqv a h)).
Qed.

Lemma foldl_insert_line_stable a ls : ∀ acc,
  StronglySorted key_le acc →
  filter (key_eqv a) (foldl (fun acc l => insert_line l acc) acc ls)
  = filter (key_eqv a) acc ++ filter (key_eqv a) ls.
Proof.
  induction ls as [|l ls IH]; intros acc Hacc; cbn [foldl].
  - by rewrite filter_nil, app_nil_r.
  - rewrite IH by (by apply insert_line_sorted).
    rewrite insert_line_stable by done.
    rewrite <- app_assoc. f_equal.
    rewrite (filter_cons _ l ls), (filter_cons _ l []).
    by destruct (decide (key_eqv a l)).
Qed.

(** X9. The sort puts the lines in the order of (page, column, y): the
    result holds the same lines, no line comes after a line that is behind
    it in the order, and lines with the same place in the order keep the
    order they were collected in. *)
Theorem sort_lines_sorts_stably (ls : list line) :
  sort_lines ls ≡ₚ ls ∧
  StronglySorted key_le (sort_lines ls) ∧
  ∀ a, filter (key_eqv a) (sort_lines ls) = filter (key_eqv a) ls.
Proof.
  split; [apply sort_lines_Permutation|]. split.
  - apply foldl_insert_line_sorted. constructor.
  - intros a. unfold sort_lines.
    rewrite foldl_insert_line_stable by constructor. done.
Qed.

(** ** The table *)

Lemma dict_loop_take refs : ∀ i count ref_dict,
  (count < 20)%nat →
  dict_loop refs i count ref_dict
  = dict_loop (take (20 - count) refs) i count ref_dict.
Proof.
  induction refs as [|ref refs IH]; intros i count ref_dict Hcount.
  { by rewrite take_nil. }
  destruct (20 - count)%nat as [|k] eqn:Hk; [lia|].
  cbn [take dict_loop]. destruct (extract_fields ref) as [row|e]; [|done].
  destruct (S count =? 20)%nat eqn:Hc; [done|].
  apply Nat.eqb_neq in Hc. rewrite IH by lia.
  by replace (20 - S count)%nat with k by lia.
Qed.

Lemma dict_loop_raises refs : ∀ i count ref_dict e,
  dict_loop refs i count ref_dict = Raised e → e = AttributeError.
Proof.
  induction refs as [|ref refs IH]; intros i count ref_dict e; [done|].
  cbn [dict_loop]. destruct (extract_fields ref) as [row|e'] eqn:He.
  - destruct (S count =? 20)%nat; [done|]. apply IH.
  - intros [= <-]. by eapply extract_fields_raises.
Qed.

Lemma dict_loop_ok_inv refs : ∀ i count ref_dict rows,
  (count < 20)%nat →
  dict_loop refs i count ref_dict = Ok rows →
  Forall well_formed (take (20 - count) refs).
Proof.
  induction refs as [|ref refs IH]; intros i count ref_dict rows Hcount.
  { rewrite take_nil. constructor. }
  destruct (20 - count)%nat as [|k] eqn:Hk; [lia|].
  cbn [take dict_loop]. destruct (extract_fields ref) as [row|e] eqn:He; [|done].
  destruct (S count =? 20)%nat eqn:Hc.
  - apply Nat.eqb_eq in Hc. assert (k = 0)%nat as -> by lia.
    intros _. rewrite take_0. repeat constructor. by exists row.
  - apply Nat.eqb_neq in Hc. intros Hloop. constructor; [by exists row|].
    replace k with (20 - S count)%nat by lia.
    eapply IH; [|done]. lia.
Qed.

(** X10. The references after the 20th are never looked at: the result is
    the one for the first 20 references alone, so nothing after them can
    make the function raise or change a row. *)
Theorem references_after_twentieth_are_not_read (refs : list string) :
  references_dict refs = references_dict (take 20 refs) ∧
  ∀ more, (20 <= length refs)%nat →
    references_dict (refs ++ more) = references_dict refs.
Proof.
  assert (H : ∀ l, references_dict l = references_dict (take 20 l)).
  { intros l. unfold references_dict. by rewrite dict_loop_take by lia. }
  split; [apply H|]. intros more Hlen.
  rewrite (H (refs ++ more)), (H refs). by rewrite take_app_le by lia.
Qed.

Lemma references_after_twentieth_are_not_read_witness :
  references_dict (take 20 twenty_five_references ++ ["no year here"])
  = references_dict (take 20 twenty_five_references).
Proof.
  apply (references_after_twentieth_are_not_read
           (take 20 twenty_five_references)).
  vm_compute. lia.
Defined.

(** X11. [references_dict] returns a table exactly when the body of the
    loop raises nothing on each of the first 20 references, and when it
    raises the exception is the AttributeError of a failed match. *)
Theorem table_iff_first_twenty_well_formed (refs : list string) :
  ((∃ rows, references_dict refs = Ok rows)
     ↔ Forall well_formed (take 20 refs)) ∧
  (∀ e, references_dict refs = Raised e → e = AttributeError).
Proof.
  split; [split|].
  - intros [rows Hrows]. unfold references_dict in Hrows.
    by apply dict_loop_ok_inv in Hrows; [|lia].
  - intros Hwf. unfold references_dict. rewrite dict_loop_take by lia.
    change (20 - 0)%nat with 20%nat.
    destruct (dict_loop_well_formed (take 20 refs) 0 0 [])
      as (rows & Hloop & _); [lia|done|].
    exists rows. by rewrite Hloop.
  - intros e. apply dict_loop_raises.
Qed.

(** ** The fields *)

Lemma substring_0_app s t : String.substring 0 (String.length s) (s +:+ t) = s.
Proof.
  induction s as [|c s IH].
  - change ("" +:+ t) with t. by destruct t.
  - change (String c s +:+ t) with (String c (s +:+ t)). cbn. by rewrite IH.
Qed.

(** A greedy star before a continuation that always accepts takes all the
    characters of its class that there are. *)
Lemma star_greedy_longest k kont caps :
  (∀ i, is_Some (kont i caps)) →
  ∀ s pos res,
    Re.star_greedy k kont caps pos s = Some res →
    ∃ pre s', s = pre +:+ s' ∧ Str.all (Re.cls_ok k) pre = true ∧
              kont ((pos + String.length pre)%nat, s') caps = Some res ∧
              ∀ c, Str.first s' = Some c → Re.cls_ok k c = false.
Proof.
  intros Hk. induction s as [|c s IH]; intros pos res; cbn [Re.star_greedy].
  - intros H. exists "", "". by rewrite Nat.add_0_r.
  - destruct (Re.cls_ok k c) eqn:Hc.
    + destruct (star_greedy_is_Some k kont caps Hk s (S pos)) as [r' Hs].
      rewrite Hs. intros [= <-].
      destruct (IH _ _ Hs) as (pre & s' & -> & Hall & Hkont & Hmax).
      exists (String c pre), s'. cbn. rewrite Hc, Hall.
      by rewrite <- Nat.add_succ_comm.
    + intros H. exists "", (String c s). rewrite Nat.add_0_r.
      repeat split; [done|]. by intros ? [= <-].
Qed.

(** What [pattern_1] captures: the authors, the year and the rest of the
    line after the year. *)
Lemma pattern_1_captures s caps :
  Re.re_search pattern_1 s = Some caps →
  ∃ (w1 w2 : ascii) (tail : string),
    s = group_text 1 caps +:+ String "." (String w1
          (group_text 2 caps +:+ String "." (String w2
             (group_text 3 caps +:+ tail)))) ∧
    group_text 1 caps ≠ "" ∧
    Str.all (Re.cls_ok Re.Dot) (group_text 1 caps) = true ∧
    Chr.isspace w1 = true ∧ Chr.isspace w2 = true ∧
    year_ok (group_text 2 caps) ∧
    Str.all (Re.cls_ok Re.Dot) (group_text 3 caps) = true ∧
    (∀ c, Str.first tail = Some c → c = Chr.newline).
Proof.
  intros Hm. unfold Re.re_search in Hm.
  apply search_from_Some in Hm as (pre & s0 & -> & Hrun).
  unfold pattern_1, Re.Plus in Hrun. cbn [Re.run Re.Word fst snd] in Hrun.
  destruct (0 + String.length pre =? 0)%nat eqn:Hpos; [|done].
  apply Nat.eqb_eq in Hpos. destruct pre; [|done]. clear Hpos.
  change ("" +:+ s0) with s0. cbn [String.length Nat.add] in Hrun.
  read_cls Hrun c0 s1 Hc0.
  apply star_lazy_sound in Hrun as (auth & s2 & -> & Hauth & Hk).
  read_cls Hk dot1 s3 Hdot1. apply Ascii.eqb_eq in Hdot1 as ->.
  read_cls Hk w1 s4 Hw1.
  cbn [Re.run Re.Word fst snd] in Hk.
  match type of Hk with
  | match ?x with Some _ => _ | None => _ end = Some _ =>
      destruct x as [res'|] eqn:Hx;
        [injection Hk as ->; rename Hx into Hk|clear Hx]
  end.
  all: read_cls Hk y1 s5 Hy1; apply Ascii.eqb_eq in Hy1 as ->.
  all: read_cls Hk y2 s6 Hy2; apply Ascii.eqb_eq in Hy2 as ->.
  all: read_cls Hk y3 s7 Hy3; read_cls Hk y4 s8 Hy4.
  all: read_cls Hk dot2 s9 Hdot2; apply Ascii.eqb_eq in Hdot2 as ->.
  all: read_cls Hk w2 rest Hw2.
  all: apply star_greedy_longest in Hk
         as (other & tail & -> & Hother & Hk & Hmax);
         [|intros i; by eexists].
  all: assert (Htail : ∀ c, Str.first tail = Some c → c = Chr.newline)
         by (intros c Hc; apply Hmax in Hc; cbn in Hc;
             by apply negb_false_iff, Ascii.eqb_eq in Hc).
  all: clear Hmax.
  all: injection Hk as <-; unfold group_text;
    cbn [Re.group Nat.eqb default fst].
  all: repeat match goal with
       | |- context [(?a - ?b)%nat] =>
           first [ replace (a - b)%nat with 4%nat by lia
                 | replace (a - b)%nat with (String.length other) by lia
                 | replace (a - b)%nat with (S (String.length auth)) by lia ]
       end.
  all: rewrite substring_0_app; cbn [String.substring];
    rewrite substring_0_app.
  all: replace (String.substring 0 0 (String "." (String w2 (other +:+ tail))))
         with "" by done.
  all: exists w1, w2, tail; (split; [done|]); (split; [done|]);
    (split; [cbn; by rewrite Hc0, Hauth|]); (split; [done|]);
    (split; [done|]); (split; [|done]); exists y3, y4; auto.
Qed.

(** What [pattern_2] captures first: the text up to the first period that
    is at the end of the text or before a whitespace character. *)
Lemma pattern_2_captures t caps :
  Re.re_search pattern_2 t = Some caps →
  ∃ (g rest : string),
    t = g +:+ String "." rest ∧
    group_text 1 caps = g +:+ "." ∧
    Str.all (Re.cls_ok Re.Dot) g = true.
Proof.
  intros Hm. unfold Re.re_search in Hm.
  apply search_from_Some in Hm as (pre & s0 & -> & Hrun).
  unfold pattern_2, Re.Plus, Re.Opt in Hrun.
  cbn [Re.run fst snd] in Hrun.
  destruct (0 + String.length pre =? 0)%nat eqn:Hpos; [|done].
  apply Nat.eqb_eq in Hpos. destruct pre; [|done]. clear Hpos.
  change ("" +:+ s0) with s0. cbn [String.length Nat.add] in Hrun.
  apply star_lazy_sound in Hrun as (g & s1 & -> & Hg & Hk).
  read_cls Hk dot s2 Hdot. apply Ascii.eqb_eq in Hdot as ->.
  exists g, s2. split; [done|]. split; [|done].
  assert (Hsub : String.substring 0 (S (0 + String.length g) - 0)
                   (g +:+ String "." s2) = g +:+ ".").
  { replace (S (0 + String.length g) - 0)%nat
      with (String.length (g +:+ ".")).
    - replace (g +:+ String "." s2) with ((g +:+ ".") +:+ s2).
      + apply substring_0_app.
      + clear. induction g as [|c g IH]; [done|].
        change (String c g +:+ ?x) with (String c (g +:+ x)).
        by rewrite <- IH.
    - clear. induction g as [|c g IH]; [done|].
      change (String c g +:+ ?x) with (String c (g +:+ x)). cbn in *. lia. }
  cbn [Re.run fst snd] in Hk.
  match type of Hk with
  | match ?x with Some _ => _ | None => _ end = Some _ =>
      destruct x as [res'|] eqn:Hx;
        [injection Hk as ->; rename Hx into Hk|clear Hx]
  end.
  - read_cls Hk w s3 Hw.
    apply star_greedy_sound in Hk as (ws & s4 & -> & Hws & Hk).
    cbn [Re.run fst snd] in Hk.
    apply star_greedy_sound in Hk as (v & s5 & -> & Hv & Hk).
    cbn [Re.run fst snd] in Hk.
    assert (Hcaps : ∃ x, caps = [(2%nat, x); (1%nat, g +:+ ".")]).
    { rewrite <- Hsub. destruct s5 as [|c s5]; [injection Hk as <-; eauto|].
      destruct s5; [|done]. destruct (Ascii.eqb c Chr.newline); [|done].
      injection Hk as <-. eauto. }
    by destruct Hcaps as [x ->].
  - assert (Hcaps : caps = [(1%nat, g +:+ ".")]).
    { rewrite <- Hsub. destruct s2 as [|c s2]; [by injection Hk as <-|].
      destruct s2; [|done]. destruct (Ascii.eqb c Chr.newline); [|done].
      by injection Hk as <-. }
    by rewrite Hcaps.
Qed.

Lemma lstrip_split (p : ascii → bool) s :
  ∃ a, s = a +:+ Str.lstrip p s ∧ Str.all p a = true.
Proof.
  induction s as [|c s (a & Ha & Hall)]; [by exists ""|]. cbn [Str.lstrip].
  destruct (p c) eqn:Hc; [|by exists ""].
  exists (String c a). change (String c a +:+ ?x) with (String c (a +:+ x)).
  rewrite <- Ha. cbn. by rewrite Hc, Hall.
Qed.

Lemma rstrip_split (p : ascii → bool) s :
  ∃ b, s = Str.rstrip p s +:+ b ∧ Str.all p b = true.
Proof.
  induction s as [|c s (b & Hb & Hall)]; [by exists ""|]. cbn [Str.rstrip].
  destruct (Str.is_empty (Str.rstrip p s)) eqn:He; cbn [andb].
  - apply is_empty_true in He. rewrite He in Hb. change ("" +:+ b) with b in Hb.
    subst b. destruct (p c) eqn:Hc.
    + exists (String c s). split; [done|]. cbn. by rewrite Hc, Hall.
    + exists s. by rewrite He.
  - exists b. change (String c ?x +:+ b) with (String c (x +:+ b)).
    by rewrite <- Hb.
Qed.

(** What [strip] leaves is a part of the text between characters of the
    stripped set. *)
Lemma strip_with_split (p : ascii → bool) s :
  ∃ a b, s = a +:+ Str.strip_with p s +:+ b ∧
         Str.all p a = true ∧ Str.all p b = true.
Proof.
  destruct (lstrip_split p s) as (a & Ha & Hall).
  destruct (rstrip_split p (Str.lstrip p s)) as (b & Hb & Hbll).
  exists a, b. unfold Str.strip_with. by rewrite <- Hb, <- Ha.
Qed.

Lemma string_app_assoc (s t u : string) : (s +:+ t) +:+ u = s +:+ t +:+ u.
Proof.
  induction s as [|c s IH]; [done|].
  change (String c s +:+ ?x) with (String c (s +:+ x)).
  change (String c (s +:+ t) +:+ u) with (String c ((s +:+ t) +:+ u)).
  by rewrite IH.
Qed.

(** X12. The fields of a row are parts of the reference, in this order: the
    authors, not empty and on one line, a period and a whitespace
    character, the year, which is 19 or 20 and two digits, a period and a
    whitespace character, and then the title between periods.  The title
    itself neither starts nor ends with a period. *)
Theorem fields_are_parts_of_the_reference (ref : string) row :
  extract_fields ref = Ok row →
  ∃ (w1 w2 : ascii) (a b rest : string),
    ref = authors row +:+ String "." (String w1
            (year row +:+ String "." (String w2
               (a +:+ title row +:+ b +:+ rest)))) ∧
    authors row ≠ "" ∧
    Str.all (Re.cls_ok Re.Dot) (authors row) = true ∧
    Chr.isspace w1 = true ∧ Chr.isspace w2 = true ∧
    year_ok (year row) ∧
    Str.all is_period a = true ∧ Str.all is_period b = true ∧
    Str.first (title row) ≠ Some "."%char ∧
    Str.last (title row) ≠ Some "."%char.
Proof.
  unfold extract_fields.
  destruct (Re.re_search pattern_1 ref) as [obj|] eqn:H1; [|done].
  destruct (Re.re_search pattern_2 (group_text 3 obj)) as [obj_2|] eqn:H2;
    [|done].
  apply pattern_1_captures in H1
    as (w1 & w2 & tail & Href & Hne & Hauth & Hw1 & Hw2 & Hyear & _ & _).
  apply pattern_2_captures in H2 as (g & rest2 & Hother & Hg1 & _).
  destruct (strip_with_split is_period (group_text 1 obj_2))
    as (a & b & Hsplit & Ha & Hb).
  set (ttl := Str.strip_with is_period (group_text 1 obj_2)) in *.
  assert (Hfields : authors row = group_text 1 obj ∧
                    year row = group_text 2 obj ∧ title row = ttl →
    ∃ (w1 w2 : ascii) (a b rest : string),
      ref = authors row +:+ String "." (String w1
              (year row +:+ String "." (String w2
                 (a +:+ title row +:+ b +:+ rest)))) ∧
      authors row ≠ "" ∧
      Str.all (Re.cls_ok Re.Dot) (authors row) = true ∧
      Chr.isspace w1 = true ∧ Chr.isspace w2 = true ∧
      year_ok (year row) ∧
      Str.all is_period a = true ∧ Str.all is_period b = true ∧
      Str.first (title row) ≠ Some "."%char ∧
      Str.last (title row) ≠ Some "."%char).
  { intros (-> & -> & ->). exists w1, w2, a, b, (rest2 +:+ tail).
    split.
    { rewrite Href at 1. do 4 f_equal. rewrite Hother.
      replace (g +:+ String "." rest2) with ((g +:+ ".") +:+ rest2)
        by apply string_app_assoc.
      rewrite <- Hg1, Hsplit at 1. by rewrite !string_app_assoc. }
    repeat split; try done.
    - by intros ?%first_strip_with.
    - by intros ?%last_strip_with. }
  destruct (Str.is_empty (group_text 2 obj_2)).
  - intros [= <-]. by apply Hfields.
  - destruct (venue_and_doi _) as [[v d]|]; [|done].
    intros [= <-]. by apply Hfields.
Qed.

Lemma fields_are_parts_of_the_reference_witness :
  let ref := "Smith, J. 2020. A Study of Things. In Proceedings of X." in
  ∃ row, extract_fields ref = Ok row ∧
         authors row = "Smith, J" ∧ year row = "2020" ∧
         title row = "A Study of Things" ∧ year_ok (year row).
Proof.
  intros ref.
  destruct (extract_fields ref) as [row|] eqn:Hrow;
    [|vm_compute in Hrow; discriminate].
  exists row. split; [reflexivity|].
  destruct (fields_are_parts_of_the_reference ref row Hrow)
    as (_ & _ & _ & _ & _ & _ & _ & _ & _ & _ & Hy & _).
  vm_compute in Hrow. injection Hrow as <-.
  repeat split; try reflexivity. exact Hy.
Defined.

(** A pattern without groups hands the captures on as they are. *)
Lemma run_no_groups r : ∀ i caps kont res,
  no_groups r = true →
  Re.run r i caps kont = Some res →
  ∃ i', kont i' caps = Some res.
Proof.
  induction r as [|k|r1 IH1 r2 IH2|r1 IH1 r2 IH2|k g|n r IH|r IH| |];
    intros i caps kont res Hng; cbn [Re.run no_groups] in *.
  - eauto.
  - destruct (i.2) as [|c s]; [done|]. destruct (Re.cls_ok k c); [eauto|done].
  - apply andb_true_iff in Hng as [H1 H2]. intros Hr.
    apply IH1 in Hr as [i1 Hr]; [|done]. by apply IH2 in Hr.
  - apply andb_true_iff in Hng as [H1 H2].
    destruct (Re.run r1 i caps kont) eqn:Hr1.
    + intros [= <-]. by eapply IH1.
    + by apply IH2.
  - destruct g.
    + intros (?&?&?&?&?)%star_greedy_sound. eauto.
    + intros (?&?&?&?&?)%star_lazy_sound. eauto.
  - done.
  - destruct (Re.run r i caps _) as [caps'|] eqn:Hr; [|done].
    apply IH in Hr as [i' Hr]; [|done]. injection Hr as <-. eauto.
  - destruct (i.1 =? 0)%nat; [eauto|done].
  - destruct (i.2) as [|c [|? ?]]; [eauto| |done].
    destruct (Ascii.eqb c Chr.newline); [eauto|done].
Qed.

Lemma substring_0_S c s n :
  String.substring 0 (S n) (String c s) = String c (String.substring 0 n s).
Proof. done. Qed.

Lemma pattern_3_captures t caps :
  Re.re_search pattern_3 t = Some caps →
  group_text 1 caps ≠ "" ∧
  (group_text 2 caps = "" ∨
   ∃ x, group_text 2 caps = "abs/" +:+ x ∧ x ≠ "").
Proof.
  intros Hm. unfold Re.re_search in Hm.
  apply search_from_Some in Hm as (pre & s0 & _ & Hrun).
  unfold pattern_3 in Hrun.
  change (Re.run (Re.Seq ?a ?b) ?i ?c ?k)
    with (Re.run a i c (fun i' c' => Re.run b i' c' k)) in Hrun.
  apply run_no_groups in Hrun as [i1 Hrun]; [|done].
  change (Re.run (Re.Seq ?a ?b) ?i ?c ?k)
    with (Re.run a i c (fun i' c' => Re.run b i' c' k)) in Hrun.
  apply run_no_groups in Hrun as [i2 Hrun]; [|done].
  change (Re.run (Re.Seq ?a ?b) ?i ?c ?k)
    with (Re.run a i c (fun i' c' => Re.run b i' c' k)) in Hrun.
  apply run_no_groups in Hrun as [[p3 s3] Hrun]; [|done].
  unfold Re.Plus, Re.Opt in Hrun. cbn [Re.run Re.Word fst snd] in Hrun.
  read_cls Hrun c0 s4 Hc0.
  apply star_lazy_sound in Hrun as (v & s5 & -> & Hv & Hk).
  cbn [fst snd] in Hk.
  replace (S p3 + String.length v - p3)%nat with (S (String.length v))
    in Hk by lia.
  rewrite substring_0_S, substring_0_app in Hk.
  split_alt Hk; [|split_alt Hk].
  - (* a comma before a place, "Virtual", "Online" or "pages" *)
    read_cls Hk comma s6 Hcomma. read_cls Hk w s7 Hw.
    apply star_greedy_sound in Hk as (ws & s8 & -> & Hws & Hk).
    cbn [fst snd] in Hk.
    destruct (Re.run place_or_pages _ _ _) as [caps'|] eqn:Hl; [|done].
    apply run_no_groups in Hl as [i' Hl]; [|done].
    injection Hl as <-. injection Hk as <-. split; [done|by left].
  - (* a comma, possibly "abs/...", a period *)
    read_cls Hk comma s6 Hcomma. read_cls Hk w s7 Hw.
    cbn [Re.run fst snd] in Hk. split_alt Hk.
    + read_cls Hk ca s8 Ha. apply Ascii.eqb_eq in Ha as ->.
      read_cls Hk cb s9 Hb. apply Ascii.eqb_eq in Hb as ->.
      read_cls Hk cs s10 Hs. apply Ascii.eqb_eq in Hs as ->.
      read_cls Hk cl s11 Hl. apply Ascii.eqb_eq in Hl as ->.
      read_cls Hk c6 s12 Hc6.
      apply star_greedy_sound in Hk as (x & s13 & -> & Hx & Hk).
      read_cls Hk dot s14 Hdot. injection Hk as <-.
      split; [done|]. right. unfold group_text. cbn [Re.group Nat.eqb default].
      match goal with
      | |- context [(?a - ?b)%nat] =>
          replace (a - b)%nat with (S (S (S (S (S (String.length x))))))
            by lia
      end.
      rewrite substring_0_app. exists (String c6 x). by split.
    + read_cls Hk dot s8 Hdot. injection Hk as <-. split; [done|by left].
  - (* a period at the end *)
    read_cls Hk dot s6 Hdot.
    destruct s6 as [|c [|? ?]]; [injection Hk as <-; split; [done|by left]| |done].
    destruct (Ascii.eqb c Chr.newline); [|done].
    injection Hk as <-. split; [done|by left].
Qed.

(** X13. The venue and the DOI: a reference with nothing after the title
    has both empty; otherwise the venue is not empty, and the DOI is either
    empty or a text that starts with "abs/" and goes on. *)
Theorem venue_and_doi_of_a_row (ref : string) row :
  extract_fields ref = Ok row →
  ((venue row = "" ∧ doi row = "") ∨ venue row ≠ "") ∧
  (doi row = "" ∨ ∃ x, doi row = "abs/" +:+ x ∧ x ≠ "").
Proof.
  unfold extract_fields, venue_and_doi.
  destruct (Re.re_search pattern_1 ref) as [obj|]; [|done].
  destruct (Re.re_search pattern_2 _) as [obj_2|]; [|done].
  destruct (Str.is_empty _).
  { intros [= <-]. cbn. auto. }
  destruct (Re.re_search pattern_3 _) as [obj_3|] eqn:H3; [|done].
  apply pattern_3_captures in H3 as [Hv Hd].
  intros [= <-]. cbn. auto.
Qed.

Lemma venue_and_doi_of_a_row_witness :
  let ref := "Doe, A. 2019. Another paper. arXiv preprint, abs/1234.5678." in
  ∃ row, extract_fields ref = Ok row ∧
         venue row = "arXiv preprint" ∧ doi row = "abs/1234.5678" ∧
         (doi row = "" ∨ ∃ x, doi row = "abs/" +:+ x ∧ x ≠ "").
Proof.
  intros ref.
  destruct (extract_fields ref) as [row|] eqn:Hrow;
    [|vm_compute in Hrow; discriminate].
  exists row. split; [reflexivity|].
  destruct (venue_and_doi_of_a_row ref row Hrow) as [_ Hd].
  vm_compute in Hrow. injection Hrow as <-.
  repeat split; try reflexivity. exact Hd.
Defined.

(** ** The page of the heading *)

(** Whatever a run returns, its continuation returned it. *)
Lemma run_kont r : ∀ i caps kont res,
  Re.run r i caps kont = Some res →
  ∃ i' caps', kont i' caps' = Some res.
Proof.
  induction r as [|k|r1 IH1 r2 IH2|r1 IH1 r2 IH2|k g|n r IH|r IH| |];
    intros i caps kont res; cbn [Re.run].
  - eauto.
  - destruct (i.2) as [|c s]; [done|]. destruct (Re.cls_ok k c); [eauto|done].
  - intros Hr. apply IH1 in Hr as (i1 & caps1 & Hr). by apply IH2 in Hr.
  - destruct (Re.run r1 i caps kont) eqn:Hr1.
    + intros [= <-]. by eapply IH1.
    + by apply IH2.
  - destruct g.
    + intros (?&?&?&?&?)%star_greedy_sound. eauto.
    + intros (?&?&?&?&?)%star_lazy_sound. eauto.
  - intros Hr. apply IH in Hr as (i' & caps' & Hr). eauto.
  - destruct (Re.run r i caps _) as [caps'|] eqn:Hr; [|done]. eauto.
  - destruct (i.1 =? 0)%nat; [eauto|done].
  - destruct (i.2) as [|c [|? ?]]; [eauto| |done].
    destruct (Ascii.eqb c Chr.newline); [eauto|done].
Qed.

Lemma length_substring_0 n s :
  (String.length (String.substring 0 n s) <= String.length s)%nat.
Proof.
  revert n. induction s as [|c s IH]; intros [|n]; cbn; try lia.
  specialize (IH n). lia.
Qed.

Lemma length_string_app s t :
  String.length (s +:+ t) = (String.length s + String.length t)%nat.
Proof.
  induction s as [|c s IH]; [done|].
  change (String c s +:+ t) with (String c (s +:+ t)). cbn. by rewrite IH.
Qed.

Lemma run_group_0 r (pos : nat) s caps :
  Re.run (Re.Group 0 r) (pos, s) [] Re.accept = Some caps →
  (String.length (group_text 0 caps) <= String.length s)%nat.
Proof.
  cbn [Re.run]. intros Hr.
  apply run_kont in Hr as (i' & caps' & Hr). unfold Re.accept in Hr.
  injection Hr as <-. unfold group_text. cbn [Re.group Nat.eqb default snd].
  apply length_substring_0.
Qed.

(** The span of a match lies in the text. *)
Lemma search_span_from_bounds r s : ∀ pos a e,
  search_span_from r pos s = Some (a, e) →
  (pos <= a ∧ a <= e ∧ e <= pos + String.length s)%nat.
Proof.
  induction s as [|c s IH]; intros pos a e; cbn [search_span_from].
  - destruct (Re.run _ _ _ _) as [caps|] eqn:Hr; [|done]. intros [= <- <-].
    apply run_group_0 in Hr. lia.
  - destruct (Re.run _ _ _ _) as [caps|] eqn:Hr.
    + intros [= <- <-]. apply run_group_0 in Hr. lia.
    + intros Hs. apply IH in Hs. cbn [String.length]. lia.
Qed.

Lemma length_full_text_from (doc : list pdf_page) : ∀ acc,
  String.length (foldl (fun acc pg => acc +:+ get_text pg) acc doc)
  = (String.length acc
     + sum_list (String.length <$> (get_text <$> doc)))%nat.
Proof.
  induction doc as [|pg doc IH]; intros acc; cbn; [lia|].
  rewrite IH, length_string_app. lia.
Qed.

Lemma length_full_text (doc : list pdf_page) :
  String.length (full_text doc)
  = sum_list (String.length <$> (get_text <$> doc)).
Proof. unfold full_text. by rewrite length_full_text_from. Qed.

(** The loop stops at the first page at whose end the count of characters
    has reached the offset. *)
Lemma find_start_page_spec texts : ∀ page_num current_char e,
  (e <= current_char + sum_list (String.length <$> texts))%nat →
  texts ≠ [] →
  ∃ k, find_start_page texts page_num current_char e = (page_num + k)%nat ∧
       (k < length texts)%nat ∧
       (e <= current_char
             + sum_list (String.length <$> take (S k) texts))%nat ∧
       ∀ q, (q < k)%nat →
            (current_char
             + sum_list (String.length <$> take (S q) texts) < e)%nat.
Proof.
  induction texts as [|t texts IH]; intros page_num current_char e He Hne;
    [done|].
  cbn [find_start_page].
  destruct (e <=? current_char + String.length t)%nat eqn:Hle.
  - apply Nat.leb_le in Hle. exists 0%nat.
    rewrite Nat.add_0_r. split; [done|]. cbn. repeat split; lia.
  - apply Nat.leb_gt in Hle. cbn in He.
    destruct texts as [|t' texts'] eqn:Htexts; [cbn in He; lia|].
    rewrite <- Htexts in *.
    destruct (IH (S page_num) (current_char + String.length t)%nat e)
      as (k & Hk & Hlt & Hwithin & Hbefore); [lia|by subst|].
    assert (Hsum : ∀ n,
      sum_list (String.length <$> take (S n) (t :: texts))
      = (String.length t + sum_list (String.length <$> take n texts))%nat)
      by done.
    exists (S k). rewrite Hk, Hsum. split; [lia|]. split; [cbn; lia|].
    split; [lia|].
    intros [|q] Hq; rewrite Hsum; [rewrite take_0; cbn; lia|].
    specialize (Hbefore q ltac:(lia)). lia.
Qed.

Lemma chars_through_sum doc q :
  chars_through doc q
  = sum_list (String.length <$> take (S q) (get_text <$> doc)).
Proof. unfold chars_through. by rewrite length_full_text, fmap_take. Qed.

(** X14. When the heading is found in the full text, the page the lines
    are collected from is a page of the document: the first one at whose
    end the text has reached the end of the match, every page before it
    ending before that point. *)
Theorem start_page_is_where_the_heading_ends
    (doc : list pdf_page) (a e : nat) :
  search_span ref_pattern (full_text doc) = Some (a, e) →
  let p := find_start_page (get_text <$> doc) 0 0 e in
  (p < length doc)%nat ∧
  (e <= chars_through doc p)%nat ∧
  ∀ q, (q < p)%nat → (chars_through doc q < e)%nat.
Proof.
  intros Hspan p.
  assert (Hdoc : doc ≠ []).
  { intros ->. by vm_compute in Hspan. }
  apply search_span_from_bounds in Hspan as (_ & _ & He).
  rewrite length_full_text in He.
  destruct (find_start_page_spec (get_text <$> doc) 0 0 e)
    as (k & Hk & Hlt & Hwithin & Hbefore); [lia|by destruct doc|].
  subst p. rewrite Hk. cbn [Nat.add]. rewrite length_fmap in Hlt.
  split; [done|]. split.
  - rewrite chars_through_sum. lia.
  - intros q Hq. rewrite chars_through_sum. specialize (Hbefore q Hq). lia.
Qed.

Lemma start_page_is_where_the_heading_ends_witness :
  search_span ref_pattern (full_text sample_pdf) = Some (49%nat, 61%nat) ∧
  find_start_page (get_text <$> sample_pdf) 0 0 61 = 1%nat ∧
  (61 <= chars_through sample_pdf 1)%nat.
Proof.
  assert (Hspan : search_span ref_pattern (full_text sample_pdf)
                  = Some (49%nat, 61%nat)) by (vm_compute; reflexivity).
  split; [exact Hspan|]. split; [reflexivity|].
  exact (proj1 (proj2
           (start_page_is_where_the_heading_ends sample_pdf 49 61 Hspan))).
Defined.

(** ** [main] *)

(** The function returns on every document: the parse loop cannot raise on
    the lines that are collected. *)
Lemma extract_acl_references_returns doc ref_start_page :
  ∃ refs, extract_acl_references doc ref_start_page = Ok refs.
Proof.
  unfold extract_acl_references, extract_from_lines.
  pose proof (all_lines_nonempty doc ref_start_page) as Hne.
  destruct (sort_lines (collect_lines doc ref_start_page)) as [|l ls];
    [by eexists|].
  pose proof (proj2 (parse_loop_is_safe (min_x_map (l :: ls)) (l :: ls) Hne))
    as Hno.
  destruct (parse_loop _ init_state (l :: ls)) as [st|st|e]; cbn;
    [by eexists..|].
  by destruct (Hno e).
Qed.

Lemma extract_acl_references_doc_returns doc :
  ∃ refs, extract_acl_references_doc doc = Ok refs.
Proof.
  unfold extract_acl_references_doc.
  destruct (search_span ref_pattern (full_text doc)) as [[a e]|];
    [|by eexists].
  apply extract_acl_references_returns.
Qed.

Lemma references_dict_length refs rows :
  references_dict refs = Ok rows →
  length rows = (length refs `min` 20)%nat.
Proof.
  intros Hrows. pose proof Hrows as Hwf.
  unfold references_dict in Hwf. apply dict_loop_ok_inv in Hwf; [|lia].
  change (20 - 0)%nat with 20%nat in Hwf.
  unfold references_dict in Hrows. rewrite dict_loop_take in Hrows by lia.
  change (20 - 0)%nat with 20%nat in Hrows.
  destruct (dict_loop_well_formed (take 20 refs) 0 0 [])
    as (rows' & Hloop & Hrows' & _); [lia|done|].
  rewrite Hloop in Hrows. injection Hrows as <-.
  apply Forall2_length in Hrows'. rewrite <- Hrows'.
  change (20 - 0)%nat with 20%nat. rewrite !length_take. lia.
Qed.

(** X15. What [main] can do.  Without a heading in the full text it writes
    an empty table.  It never stops on the IndexError of the parse loop:
    when it raises, it is the AttributeError of a reference that the field
    patterns do not match.  When it returns, the table has a row for each
    reference found, up to 20, and goes to the path made from the two
    names. *)
Theorem main_outcomes (pdf_loc pdf_name : string) (doc : list pdf_page) :
  (search_span ref_pattern (full_text doc) = None →
     main pdf_loc pdf_name doc = Ok (output_path pdf_loc pdf_name, [])) ∧
  (∀ e, main pdf_loc pdf_name doc = Raised e → e = AttributeError) ∧
  (∀ path ref_df, main pdf_loc pdf_name doc = Ok (path, ref_df) →
     path = output_path pdf_loc pdf_name ∧
     ∃ refs, extract_acl_references_doc doc = Ok refs ∧
             length ref_df = (length refs `min` 20)%nat).
Proof.
  unfold main. split; [|split].
  - intros Hnone. unfold extract_acl_references_doc. by rewrite Hnone.
  - intros e. destruct (extract_acl_references_doc_returns doc) as [refs ->].
    destruct (references_dict refs) as [rows|e'] eqn:Hrows; [done|].
    intros [= <-]. unfold references_dict in Hrows.
    by eapply dict_loop_raises.
  - intros path ref_df.
    destruct (extract_acl_references_doc doc) as [refs|]; [|done].
    destruct (references_dict refs) as [rows|] eqn:Hrows; [|done].
    intros [= <- <-]. split; [done|]. exists refs. split; [done|].
    by apply references_dict_length.
Qed.

Lemma main_outcomes_witness :
  main "papers/" "ACL_paper.pdf" [PdfPage "No heading here." (Page 595 [])]
  = Ok ("papers/ACL_paper.txt", []).
Proof.
  apply (main_outcomes "papers/" "ACL_paper.pdf"
           [PdfPage "No heading here." (Page 595 [])]).
  vm_compute. reflexivity.
Defined.

Lemma rstrip_app_all (p : ascii → bool) s t :
  Str.all p t = true → Str.rstrip p (s +:+ t) = Str.rstrip p s.
Proof.
  intros Ht. induction s as [|c s IH].
  - change ("" +:+ t) with t. cbn.
    induction t as [|a t IHt]; [done|]. cbn in *.
    apply andb_true_iff in Ht as [Ha Ht]. by rewrite (IHt Ht), Ha.
  - change (String c s +:+ t) with (String c (s +:+ t)). cbn. by rewrite IH.
Qed.

(** X16. The name of the output file: [strip('.pdf')] takes the characters
    ".", "p", "d" and "f" off both ends of the name, not the extension.
    For a stem that neither starts nor ends with one of them the result is
    the stem with ".txt"; a name that starts with one of them loses it. *)
Theorem output_path_strips_characters (pdf_loc stem : string) :
  (∀ c, Str.first stem = Some c → in_chars ".pdf" c = false) →
  (∀ c, Str.last stem = Some c → in_chars ".pdf" c = false) →
  output_path pdf_loc (stem +:+ ".pdf") = (pdf_loc +:+ stem) +:+ ".txt" ∧
  ∀ c name, in_chars ".pdf" c = true →
    output_path pdf_loc (String c name) = output_path pdf_loc name.
Proof.
  intros Hfirst Hlast. split.
  - unfold output_path. do 2 f_equal. unfold Str.strip_with.
    destruct (decide (stem = "")) as [->|Hne]; [done|].
    assert (Hl : Str.lstrip (in_chars ".pdf") (stem +:+ ".pdf")
                 = stem +:+ ".pdf").
    { destruct stem as [|a stem]; [done|].
      change (String a stem +:+ ?x) with (String a (stem +:+ x)).
      cbn [Str.lstrip]. by rewrite (Hfirst a). }
    rewrite Hl, rstrip_app_all by done.
    pose proof (strip_with_fixed (in_chars ".pdf") stem Hfirst Hlast) as Hs.
    unfold Str.strip_with in Hs.
    assert (Hl' : Str.lstrip (in_chars ".pdf") stem = stem).
    { destruct stem as [|a stem]; [done|]. cbn [Str.lstrip].
      by rewrite (Hfirst a). }
    by rewrite Hl' in Hs.
  - intros c name Hc. unfold output_path, Str.strip_with.
    cbn [Str.lstrip]. by rewrite Hc.
Qed.

Lemma output_path_strips_characters_witness :
  output_path "papers/" ("ACL_paper" +:+ ".pdf") = "papers/ACL_paper.txt" ∧
  output_path "papers/" "pdf_paper.pdf" = "papers/_paper.txt".
Proof.
  split.
  - apply (output_path_strips_characters "papers/" "ACL_paper");
      intros c [= <-]; reflexivity.
  - reflexivity.
Defined.

(** ** Entries laid out as expected *)

Lemma plain_reaches st l :
  in_references st = true → prev_was_A st = false → plain l →
  reaches_classification st l.
Proof.
  intros Hin Hprev (Hs & _ & _ & HA & Happ). repeat split; try done.
  by rewrite Hs.
Qed.

Lemma plain_last l : plain l → ∃ c, Str.last (text l) = Some c ∧
  c ≠ "-"%char ∧ Chr.isspace c = false.
Proof.
  intros (Hs & Hh & Hne & _). destruct (last_is_Some _ Hne) as [c Hc].
  exists c. split; [done|]. split.
  - intros ->. rewrite <- Hh in Hc. by apply strip_hyphens_last in Hc.
  - rewrite <- Hs in Hc. by apply last_strip_with in Hc.
Qed.

Lemma plain_first l : plain l → ∃ c, Str.first (text l) = Some c ∧
  Chr.isspace c = false.
Proof.
  intros (Hs & _ & Hne & _). destruct (text l) as [|c t] eqn:Ht; [done|].
  exists c. split; [done|]. rewrite <- Ht in Hs.
  assert (Hf : Str.first (Str.strip (text l)) = Some c)
    by (by rewrite Hs, Ht).
  by apply first_strip_with in Hf.
Qed.

(** The first line of an entry closes the entry before it and opens its
    own. *)
Lemma step_entry_start m st f :
  in_references st = true → prev_was_A st = false →
  plain f → Str.isnumeric (text f) = false →
  (∀ tol, is_new_ref m tol f = true) →
  ∃ st', step m st f = Next st' ∧
    references st' = finish st ∧ current_ref st' = text f ∧
    old_text st' = text f ∧
    in_references st' = true ∧ prev_was_A st' = false.
Proof.
  intros Hin Hprev Hpl Hnum Hnew.
  rewrite (step_classifies m st f (plain_reaches st f Hin Hprev Hpl)).
  unfold accumulate. rewrite Hnew, Hnum.
  destruct Hpl as (_ & Hh & _).
  eexists. split; [reflexivity|]. cbn. rewrite Hh.
  unfold start_reference, finish. cbn.
  destruct (Str.is_empty (current_ref st)); cbn; by rewrite ?Hin.
Qed.

(** A further line of the entry is joined after one space. *)
Lemma step_entry_continuation m st c :
  in_references st = true → prev_was_A st = false →
  current_ref st ≠ "" →
  (∃ a, Str.last (old_text st) = Some a ∧ a ≠ "-"%char) →
  plain c → (∀ tol, is_new_ref m tol c = false) →
  ∃ st', step m st c = Next st' ∧
    references st' = references st ∧
    current_ref st' = current_ref st +:+ " " +:+ text c ∧
    old_text st' = text c ∧
    in_references st' = true ∧ prev_was_A st' = false.
Proof.
  intros Hin Hprev Hcur (a & Ha & Hne) Hpl Hnew.
  rewrite (step_classifies m st c (plain_reaches st c Hin Hprev Hpl)).
  unfold accumulate. rewrite Hnew. unfold join_continuation.
  cbn [current_ref old_text set_tolerance push_page].
  apply is_empty_false in Hcur. rewrite Hcur, Ha.
  destruct Hpl as (_ & Hh & _). rewrite Hh.
  destruct (Ascii.eqb_spec a Chr.hyphen) as [->|_]; [done|].
  eexists. split; [reflexivity|]. by cbn.
Qed.

Lemma is_empty_joined_step acc t : acc ≠ "" → acc +:+ " " +:+ t ≠ "".
Proof. by destruct acc. Qed.

Lemma parse_loop_continuations m cs : ∀ st,
  in_references st = true → prev_was_A st = false →
  current_ref st ≠ "" →
  (∃ a, Str.last (old_text st) = Some a ∧ a ≠ "-"%char) →
  Forall (fun c => plain c ∧ ∀ tol, is_new_ref m tol c = false) cs →
  ∃ st', parse_loop m st cs = Next st' ∧
    references st' = references st ∧
    current_ref st'
    = foldl (fun acc c => acc +:+ " " +:+ text c) (current_ref st) cs ∧
    current_ref st' ≠ "" ∧
    in_references st' = true ∧ prev_was_A st' = false.
Proof.
  induction cs as [|c cs IH]; intros st Hin Hprev Hcur Hold Hcs.
  { exists st. by repeat split. }
  apply Forall_cons in Hcs as [[Hpl Hnew] Hcs].
  destruct (step_entry_continuation m st c Hin Hprev Hcur Hold Hpl Hnew)
    as (st1 & Hstep & Hrefs & Hcur1 & Hold1 & Hin1 & Hprev1).
  destruct (IH st1) as (st' & Hloop & Hrefs' & Hcur' & Hne' & Hin' & Hprev');
    try done.
  { rewrite Hcur1. by apply is_empty_joined_step. }
  { rewrite Hold1. destruct (plain_last c Hpl) as (a & Ha & Hne & _). eauto. }
  exists st'. rewrite parse_loop_cons, Hstep. split; [done|].
  split; [congruence|]. split; [|done]. cbn [foldl]. by rewrite <- Hcur1.
Qed.

Lemma first_app s t : s ≠ "" → Str.first (s +:+ t) = Str.first s.
Proof. by destruct s. Qed.

Lemma joined_from_trimmed cs : ∀ acc,
  acc ≠ "" → trimmed acc → Forall plain cs →
  trimmed (foldl (fun acc c => acc +:+ " " +:+ text c) acc cs).
Proof.
  induction cs as [|c cs IH]; intros acc Hne [Hf Hl] Hcs; [done|].
  apply Forall_cons in Hcs as [Hpl Hcs]. cbn [foldl].
  apply IH; [by apply is_empty_joined_step| |done].
  destruct (plain_last c Hpl) as (a & Ha & _ & Hsp).
  assert (Htc : Str.is_empty (" " +:+ text c) = false) by done.
  assert (Hc : Str.is_empty (text c) = false).
  { apply is_empty_false. by destruct Hpl as (_ & _ & ? & _). }
  split; intros x.
  - rewrite first_app by done. apply Hf.
  - rewrite last_app, Htc, last_app, Hc, Ha. by intros [= <-].
Qed.

Lemma joined_is_stripped m en :
  entry_ok m en → Str.strip (joined en) = joined en ∧ joined en ≠ "".
Proof.
  intros (Hpl & _ & _ & Hcs). unfold joined.
  assert (Hne : text en.1 ≠ "") by (by destruct Hpl as (_ & _ & ? & _)).
  assert (Htr : trimmed (text en.1)).
  { destruct (plain_first _ Hpl) as (a & Ha & Hsa).
    destruct (plain_last _ Hpl) as (b & Hb & _ & Hsb).
    split; intros x Hx; congruence. }
  assert (Hcs' : Forall plain en.2).
  { eapply Forall_impl; [done|]. by intros c [? _]. }
  pose proof (joined_from_trimmed en.2 (text en.1) Hne Htr Hcs') as [Hf Hl].
  split; [by apply strip_with_fixed|].
  clear -Hne. revert Hne. generalize (text en.1).
  induction en.2 as [|c cs IH]; intros acc Hacc; [done|].
  cbn [foldl]. by apply IH, is_empty_joined_step.
Qed.

(** All the lines of one entry: the entry before is finalized and the
    accumulator holds the joined text of this one. *)
Lemma parse_loop_entry m st en :
  in_references st = true → prev_was_A st = false →
  entry_ok m en →
  ∃ st', parse_loop m st (entry_lines en) = Next st' ∧
    references st' = finish st ∧ current_ref st' = joined en ∧
    in_references st' = true ∧ prev_was_A st' = false.
Proof.
  intros Hin Hprev (Hpl & Hnum & Hnew & Hcs).
  destruct (step_entry_start m st en.1 Hin Hprev Hpl Hnum Hnew)
    as (st1 & Hstep & Hrefs & Hcur & Hold & Hin1 & Hprev1).
  destruct (parse_loop_continuations m en.2 st1)
    as (st' & Hloop & Hrefs' & Hcur' & _ & Hin' & Hprev'); try done.
  { rewrite Hcur. by destruct Hpl as (_ & _ & ? & _). }
  { rewrite Hold. destruct (plain_last _ Hpl) as (a & Ha & Hne & _). eauto. }
  exists st'. unfold entry_lines. rewrite parse_loop_cons, Hstep.
  split; [done|]. split; [congruence|]. split; [|done].
  unfold joined. by rewrite Hcur', Hcur.
Qed.

Lemma parse_loop_entries m ens : ∀ st,
  in_references st = true → prev_was_A st = false →
  Forall (entry_ok m) ens →
  ∃ st', parse_loop m st (ens ≫= entry_lines) = Next st' ∧
    finish st' = finish st ++ (joined <$> ens).
Proof.
  induction ens as [|en ens IH]; intros st Hin Hprev Hens.
  { exists st. cbn. by rewrite app_nil_r. }
  apply Forall_cons in Hens as [Hen Hens].
  destruct (parse_loop_entry m st en Hin Hprev Hen)
    as (st1 & Hloop & Hrefs & Hcur & Hin1 & Hprev1).
  destruct (IH st1 Hin1 Hprev1 Hens) as (st' & Hloop' & Hfin).
  exists st'. cbn [mbind list_bind]. rewrite parse_loop_app, Hloop.
  split; [done|]. rewrite Hfin, fmap_cons, (cons_middle (joined en)).
  rewrite app_assoc. f_equal.
  destruct (joined_is_stripped m en Hen) as [Hs Hne].
  rewrite (finish_spec st1), Hcur, Hrefs, Hs.
  apply is_empty_false in Hne. by rewrite Hne.
Qed.

(** X17. A bibliography laid out as expected is read back entry by entry:
    after a heading line, for entries each made of a first line at the
    baseline and of lines indented past the tolerance, with stripped texts
    that have no hyphen at either end and trigger no appendix rule, the
    function returns one reference per entry, in order, each the texts of
    the lines of the entry joined by single spaces. *)
Theorem well_laid_out_entries_are_read_back
    (h : line) (ens : list (line * list line)) :
  let all_lines := h :: (ens ≫= entry_lines) in
  is_heading h = true →
  Forall (entry_ok (min_x_map all_lines)) ens →
  extract_from_lines all_lines = Ok (joined <$> ens).
Proof.
  intros all_lines Hh Hens.
  change (extract_from_lines all_lines)
    with (output (parse_loop (min_x_map all_lines) init_state
                    (h :: (ens ≫= entry_lines)))).
  rewrite parse_loop_cons.
  assert (Hstep : step (min_x_map all_lines) init_state h
                  = Next (set_in_references true init_state)).
  { unfold step. unfold is_heading in Hh.
    cbn [in_references init_state negb]. by rewrite Hh. }
  rewrite Hstep.
  destruct (parse_loop_entries (min_x_map all_lines) ens
              (set_in_references true init_state))
    as (st' & Hloop & Hfin); [done..|].
  rewrite Hloop. cbn [output]. by rewrite Hfin.
Qed.

Lemma well_laid_out_entries_are_read_back_witness :
  let h := Line 0 0 88 72 "References" in
  let f1 := Line 0 0 100 72 "Smith, J. 2020. Some Study of" in
  let c1 := Line 0 0 112 82 "Things. In Proceedings of X." in
  let f2 := Line 0 0 124 72 "Doe, B. 2019. Another paper." in
  extract_from_lines (h :: ([(f1, [c1]); (f2, [])] ≫= entry_lines))
  = Ok ["Smith, J. 2020. Some Study of Things. In Proceedings of X.";
        "Doe, B. 2019. Another paper."].
Proof.
  intros h f1 c1 f2.
  apply (well_laid_out_entries_are_read_back h [(f1, [c1]); (f2, [])]).
  - reflexivity.
  - assert (Hplain : plain f1 ∧ plain c1 ∧ plain f2).
    { repeat split; first [discriminate | vm_compute; reflexivity]. }
    destruct Hplain as (Hf1 & Hc1 & Hf2).
    apply Forall_cons. split; [|apply Forall_singleton].
    + split; [exact Hf1|]. split; [vm_compute; reflexivity|].
      split; [intros tol; vm_compute; reflexivity|].
      apply Forall_singleton. split; [exact Hc1|].
      intros tol. vm_compute. reflexivity.
    + split; [exact Hf2|]. split; [vm_compute; reflexivity|].
      split; [intros tol; vm_compute; reflexivity|]. constructor.
Defined.

(** ** The patterns of the parser *)

Lemma search_from_complete r pre : ∀ s pos,
  is_Some (Re.run r ((pos + String.length pre)%nat, s) [] Re.accept) →
  is_Some (Re.search_from r pos (pre +:+ s)).
Proof.
  induction pre as [|c pre IH]; intros s pos Hr.
  - change ("" +:+ s) with s. cbn in Hr. rewrite Nat.add_0_r in Hr.
    by apply search_from_here.
  - change (String c pre +:+ s) with (String c (pre +:+ s)).
    cbn [Re.search_from].
    destruct (Re.run r (pos, String c (pre +:+ s)) [] Re.accept);
      [by eexists|].
    apply IH. cbn in Hr. by rewrite Nat.add_succ_comm.
Qed.

(** X18. The heading pattern is found in a text exactly when the text
    holds one of the words References, REFERENCES or Bibliography, anywhere
    in it. *)
Theorem heading_found_iff (t : string) :
  Re.found (Re.re_search heading_re t) = true ↔
  ∃ pre w post,
    (w = "References" ∨ w = "REFERENCES" ∨ w = "Bibliography") ∧
    t = pre +:+ w +:+ post.
Proof.
  split.
  - destruct (Re.re_search heading_re t) as [caps|] eqn:Hm; [|done].
    intros _. unfold Re.re_search in Hm.
    apply search_from_Some in Hm as (pre & s0 & -> & Hk).
    unfold heading_re in Hk. cbn [Re.run Re.Word fst snd] in Hk.
    split_alt Hk; [|split_alt Hk].
    + do 10 read_lit Hk. exists pre, "References"; eauto.
    + do 10 read_lit Hk. exists pre, "REFERENCES"; eauto.
    + do 12 read_lit Hk. exists pre, "Bibliography"; eauto.
  - intros (pre & w & post & Hw & ->).
    assert (Hs : is_Some (Re.re_search heading_re (pre +:+ w +:+ post))).
    { apply search_from_complete.
      destruct Hw as [-> | [-> | ->]]; vm_compute; by eexists. }
    by destruct Hs as [caps ->].
Qed.

(** When the continuation accepts after all the characters of the class,
    the greedy star gets there. *)
Lemma star_greedy_complete k kont caps pre : ∀ s pos,
  Str.all (Re.cls_ok k) pre = true →
  is_Some (kont ((pos + String.length pre)%nat, s) caps) →
  is_Some (Re.star_greedy k kont caps pos (pre +:+ s)).
Proof.
  induction pre as [|c pre IH]; intros s pos Hall Hk.
  - change ("" +:+ s) with s. cbn in Hk. rewrite Nat.add_0_r in Hk.
    destruct s as [|c s]; cbn [Re.star_greedy]; [done|].
    destruct (Re.cls_ok k c); [|done].
    destruct (Re.star_greedy k kont caps (S pos) s); [by eexists|done].
  - cbn [Str.all] in Hall. apply andb_true_iff in Hall as [Hc Hall].
    change (String c pre +:+ s) with (String c (pre +:+ s)).
    cbn [Re.star_greedy]. rewrite Hc.
    destruct (IH s (S pos) Hall) as [res ->]; [|by eexists].
    cbn in Hk. by rewrite Nat.add_succ_comm.
Qed.

(** X19. The appendix pattern matches a text exactly when the text is made
    of newlines, if any, then "A", one whitespace character or more, and a
    capital letter from A to Z, whatever comes after. *)
Theorem appendix_pattern_matches_iff (t : string) :
  Re.found (Re.re_match appendix_re t) = true ↔
  ∃ nls w ws cap rest,
    t = nls +:+ String "A" (String w (ws +:+ String cap rest)) ∧
    Str.all (Re.cls_ok (Re.Lit Chr.newline)) nls = true ∧
    Chr.isspace w = true ∧
    Str.all Chr.isspace ws = true ∧
    Chr.in_range "A" "Z" cap = true.
Proof.
  split.
  - destruct (Re.re_match appendix_re t) as [res|] eqn:Hm; [|done].
    intros _. unfold Re.re_match, appendix_re, Re.Plus in Hm.
    cbn [Re.run fst snd Nat.eqb] in Hm.
    apply star_greedy_sound in Hm as (nls & s1 & -> & Hnls & Hk).
    read_lit Hk. read_cls Hk w s3 Hw.
    apply star_greedy_sound in Hk as (ws & s4 & -> & Hws & Hk).
    read_cls Hk cap rest Hcap.
    exists nls, w, ws, cap, rest. by repeat split.
  - intros (nls & w & ws & cap & rest & -> & Hnls & Hw & Hws & Hcap).
    assert (Hs : is_Some (Re.re_match appendix_re
      (nls +:+ String "A" (String w (ws +:+ String cap rest))))).
    { unfold Re.re_match, appendix_re, Re.Plus.
      cbn [Re.run fst snd Nat.eqb].
      apply star_greedy_complete; [done|].
      cbn [Re.run fst snd Re.cls_ok]. rewrite Ascii.eqb_refl, Hw.
      apply star_greedy_complete; [done|].
      cbn [Re.run fst snd Re.cls_ok]. rewrite Hcap. by eexists. }
    by destruct Hs as [caps ->].
Qed.

(** ** Page numbers among the references *)

Lemma page_in_app p ps x :
  page_in p (ps ++ [x]) = page_in p ps || (p =? x)%nat.
Proof.
  unfold page_in. rewrite existsb_app. cbn. by rewrite orb_false_r.
Qed.

Lemma is_new_ref_two_columns m tol tol' l :
  column l = 0 ∨ column l = 1 → is_new_ref m tol l = is_new_ref m tol' l.
Proof. unfold is_new_ref, column_tolerance. by intros [-> | ->]. Qed.

Lemma same_but_pages_refl st : same_but_pages st st.
Proof. by repeat split. Qed.

Lemma step_same m st st' l :
  same_but_pages st st' → column l = 0 ∨ column l = 1 →
  same_flow (step m st l) (step m st' l).
Proof.
  intros (Hr & Hc & Hi & Hp & Hn & Ho & Hpg) Hcol.
  destruct st as [r t c i p n pl o], st' as [r' t' c' i' p' n' pl' o'].
  cbn in Hr, Hc, Hi, Hp, Hn, Ho. cbn [page_list] in Hpg.
  subst r' c' i' p' n' o'.
  unfold step. cbn [in_references prev_was_A page_list].
  destruct i; cbn [negb].
  2: { destruct (Re.found _); cbn; by repeat split. }
  destruct (String.eqb _ _); [cbn; by repeat split|].
  destruct p; [cbn; by repeat split|].
  destruct (Re.found _).
  { rewrite Hpg. destruct (page_in _ pl'); cbn; by repeat split. }
  unfold accumulate. cbn [tolerance push_page].
  rewrite (is_new_ref_two_columns m t t' l Hcol).
  assert (Hpg' : ∀ q, page_in q (pl ++ [page_num l])
                      = page_in q (pl' ++ [page_num l]))
    by (intros q; by rewrite !page_in_app, Hpg).
  destruct (is_new_ref m t' l).
  - destruct (Str.isnumeric (text l)); [cbn; by repeat split|].
    unfold start_reference. cbn.
    destruct (Str.is_empty c); cbn; by repeat split.
  - unfold join_continuation. cbn.
    destruct (Str.is_empty c); [cbn; by repeat split|].
    destruct (Str.last o) as [a|]; [|done].
    destruct (Ascii.eqb a Chr.hyphen); cbn; by repeat split.
Qed.

Lemma parse_loop_same m ls : ∀ st st',
  same_but_pages st st' →
  Forall (fun l => column l = 0 ∨ column l = 1) ls →
  same_flow (parse_loop m st ls) (parse_loop m st' ls).
Proof.
  induction ls as [|l ls IH]; intros st st' Hsame Hcols; [done|].
  apply Forall_cons in Hcols as [Hcol Hcols]. cbn [parse_loop].
  pose proof (step_same m st st' l Hsame Hcol) as Hstep.
  destruct (step m st l), (step m st' l); try done.
  by apply IH.
Qed.

Lemma same_flow_output f f' : same_flow f f' → output f = output f'.
Proof.
  destruct f as [st|st|e], f' as [st'|st'|e']; try done; cbn;
    try (by intros ->);
    intros (Hr & Hc & _); unfold finish; cbn; by rewrite Hr, Hc.
Qed.

(** With one map for both runs, a numeric line that is dropped on a page
    already in [page_list] leaves no trace in what follows. *)
Lemma dropped_numeric_line_same_output m st n rest :
  reaches_classification st n →
  Str.isnumeric (text n) = true →
  is_new_ref m (tolerance st) n = true →
  page_in (page_num n) (page_list st) = true →
  Forall (fun l => column l = 0 ∨ column l = 1) rest →
  output (parse_loop m st (n :: rest)) = output (parse_loop m st rest).
Proof.
  intros Hcls Hnum Hnew Hpage Hcols.
  rewrite parse_loop_cons, (step_classifies m st n Hcls).
  unfold accumulate. cbn [tolerance push_page]. rewrite Hnew, Hnum.
  apply same_flow_output, parse_loop_same; [|done].
  repeat split; try done. intros p. cbn [page_list set_tolerance push_page].
  rewrite page_in_app.
  destruct (Nat.eqb_spec p (page_num n)) as [->|_];
    [by rewrite Hpage|by rewrite orb_false_r].
Qed.

(** X20. A page number among the references is invisible when its page has
    already given a line and it does not set the baseline of its column: a
    numeric line that the loop reaches and takes as a new-reference start,
    on a page that is in [page_list], with another line of its (page,
    column) not to the right of it, can be taken out of [all_lines] without
    changing what the function returns.  The baselines of both runs are
    those of their own lines. *)
Theorem numeric_line_on_seen_page_is_invisible
    (pre : list line) (n : line) (rest : list line) (st : state) :
  let m := min_x_map (pre ++ n :: rest) in
  parse_loop m init_state pre = Next st →
  reaches_classification st n →
  Str.isnumeric (text n) = true →
  is_new_ref m (tolerance st) n = true →
  page_in (page_num n) (page_list st) = true →
  Forall (fun l => column l = 0 ∨ column l = 1) rest →
  (∃ l, l ∈ pre ++ rest ∧ page_num l = page_num n ∧
        column l = column n ∧ (x_pos l <= x_pos n)%Q) →
  extract_from_lines (pre ++ n :: rest) = extract_from_lines (pre ++ rest).
Proof.
  intros m Hpre Hcls Hnum Hnew Hpage Hcols (l0 & Hl0 & Hpg0 & Hcol0 & Hle0).
  assert (Hlhs : extract_from_lines (pre ++ n :: rest)
                 = output (parse_loop m st rest)).
  { transitivity (output (parse_loop m init_state (pre ++ n :: rest)));
      [by destruct pre|].
    rewrite parse_loop_app, Hpre.
    by apply dropped_numeric_line_same_output. }
  assert (Hrhs : extract_from_lines (pre ++ rest)
                 = output (parse_loop (min_x_map (pre ++ rest)) init_state
                             (pre ++ rest))).
  { unfold extract_from_lines. destruct (pre ++ rest) eqn:He; [|done].
    by apply not_elem_of_nil in Hl0. }
  rewrite Hlhs, Hrhs.
  rewrite (parse_loop_ext (min_x_map (pre ++ rest)) m).
  { by rewrite parse_loop_app, Hpre. }
  apply Forall_forall. intros l Hl. apply baseline_same_minimum.
  - intros a Ha Hka. exists a. split; [|split; [done|apply Qle_refl]].
    apply elem_of_app in Ha as [Ha|Ha]; apply elem_of_app; [by left|].
    right. by apply list_elem_of_further.
  - intros b Hb Hkb. apply elem_of_app in Hb as [Hb|Hb].
    + exists b. split; [|split; [done|apply Qle_refl]].
      apply elem_of_app. by left.
    + apply elem_of_cons in Hb as [->|Hb].
      * exists l0. split; [done|]. split; [|done].
        rewrite <- Hkb. apply line_key_eq. by split.
      * exists b. split; [|split; [done|apply Qle_refl]].
        apply elem_of_app. by right.
Qed.

Lemma numeric_line_on_seen_page_is_invisible_witness :
  let heading := Line 0 0 88 72 "References" in
  let r1 := Line 0 0 100 72 "Smith, J. 2020. Things." in
  let n := Line 0 0 112 72 "12" in
  let r2 := Line 0 0 124 72 "Doe, B. 2019. Another paper." in
  extract_from_lines [heading; r1; n; r2]
  = extract_from_lines [heading; r1; r2] ∧
  extract_from_lines [heading; r1; r2]
  = Ok ["Smith, J. 2020. Things."; "Doe, B. 2019. Another paper."].
Proof.
  intros heading r1 n r2.
  set (st := {| references := []; tolerance := 3;
                current_ref := "Smith, J. 2020. Things.";
                in_references := true; prev_was_A := false; ref_count := 0;
                page_list := [0%nat];
                old_text := "Smith, J. 2020. Things." |}).
  split; [|vm_compute; reflexivity].
  apply (numeric_line_on_seen_page_is_invisible [heading; r1] n [r2] st).
  - vm_compute. reflexivity.
  - split; [reflexivity|]. split; [vm_compute; discriminate|].
    split; vm_compute; reflexivity.
  - vm_compute. reflexivity.
  - vm_compute. reflexivity.
  - vm_compute. reflexivity.
  - apply Forall_singleton. by left.
  - exists r1. split; [apply list_elem_of_further, list_elem_of_here|].
    split; [reflexivity|]. split; [reflexivity|].
    vm_compute. discriminate.
Defined.

(** The condition on the other line of the column is needed: a numeric line
    that alone sets the baseline of its column makes the lines after it
    continuations, and without it they are references of their own. *)
Lemma numeric_line_can_set_the_baseline :
  let heading := Line 0 0 88 72 "References" in
  let r1 := Line 0 0 100 72 "Smith, J. 2020. Things." in
  let n := Line 0 0 112 60 "12" in
  let r2 := Line 0 0 124 72 "Doe, B. 2019. Another paper." in
  extract_from_lines [heading; r1; n; r2]
  ≠ extract_from_lines [heading; r1; r2].
Proof. vm_compute. discriminate. Qed.
